(** * Bot-message freshness engine: Direct Line polling and DOM stabilization

    A shallow embedding of
      - src/services/directLineService.js  (getBotActivities, getLatestBotMessage)
      - src/hooks/useDirectLineBotMessages.js (startPolling, pollBotMessages, stopPolling)
      - src/hooks/useTypingDetection.js (useChatbotMessages: checkAndProcessStableMessage)
    and the properties of these functions.

    JavaScript values are embedded by their documented types: a string is its
    sequence of UTF-16 code units, an optional property is an [option], an
    exception is the [Throw] case of a completion.  [console.log] calls are
    dropped, except that evaluating their arguments can raise. *)

From Stdlib Require Import ZArith List Bool String Ascii Lia.
Import ListNotations.
Local Open Scope Z_scope.

(* ===================================================================== *)
(** ** JavaScript strings *)
(* ===================================================================== *)

Module JsString.

(** A JavaScript string: its UTF-16 code units. *)
Definition jsstring := list Z.

(** An ASCII literal of the source. *)
Definition lit (s : string) : jsstring :=
  map (fun c => Z.of_nat (nat_of_ascii c)) (list_ascii_of_string s).

Definition eqb (a b : jsstring) : bool :=
  if list_eq_dec Z.eq_dec a b then true else false.

(** [s.length] *)
Definition length (s : jsstring) : Z := Z.of_nat (List.length s).

(** ToBoolean on a string: the empty string is falsy. *)
Definition truthy (s : jsstring) : bool :=
  match s with [] => false | _ => true end.

(** ToBoolean on an optional string property: [undefined] and [''] are falsy. *)
Definition truthy_opt (o : option jsstring) : bool :=
  match o with Some s => truthy s | None => false end.

(** [a || b] where [a] is an optional string and [b] a string. *)
Definition or_else (a : option jsstring) (b : jsstring) : jsstring :=
  match a with
  | Some s => if truthy s then s else b
  | None => b
  end.

(** WhiteSpace and LineTerminator code units: what [trim] removes and what
    the regular-expression class [\s] matches. *)
Definition isWhiteSpace (c : Z) : bool :=
  (9 <=? c) && (c <=? 13)
  || (c =? 32) || (c =? 160) || (c =? 5760)
  || (8192 <=? c) && (c <=? 8202)
  || (c =? 8232) || (c =? 8233) || (c =? 8239) || (c =? 8287)
  || (c =? 12288) || (c =? 65279).

Fixpoint trimStart (s : jsstring) : jsstring :=
  match s with
  | c :: r => if isWhiteSpace c then trimStart r else s
  | [] => []
  end.

Definition trimEnd (s : jsstring) : jsstring := rev (trimStart (rev s)).

(** [s.trim()] *)
Definition trim (s : jsstring) : jsstring := trimEnd (trimStart s).

Fixpoint startsWith (p s : jsstring) : bool :=
  match p, s with
  | [], _ => true
  | a :: p', b :: s' => (a =? b) && startsWith p' s'
  | _ :: _, [] => false
  end.

(** [s.includes(p)] *)
Fixpoint includes (p s : jsstring) : bool :=
  startsWith p s ||
  match s with
  | [] => false
  | _ :: r => includes p r
  end.

(** Lower-casing of the letters A-Z: what [toLowerCase] does to a string
    of ASCII characters. *)
Definition toLowerASCII (s : jsstring) : jsstring :=
  map (fun c => if (65 <=? c) && (c <=? 90) then c + 32 else c) s.

(** Decimal rendering of a number, as a template literal does for an
    integer status code. *)
Fixpoint digits (fuel : nat) (n : Z) (acc : jsstring) : jsstring :=
  match fuel with
  | O => acc
  | S f =>
      let acc' := (48 + n mod 10) :: acc in
      if n / 10 =? 0 then acc' else digits f (n / 10) acc'
  end.

Definition ofNumber (n : Z) : jsstring :=
  if n <? 0 then 45 :: digits (S (Z.to_nat (- n))) (- n) []
  else digits (S (Z.to_nat n)) n [].

End JsString.

Import JsString.

(* ===================================================================== *)
(** ** Completions: a returned value or a thrown exception *)
(* ===================================================================== *)

(** The exceptions these files raise or propagate: [new Error(message)]
    and the engine's TypeError for a property read on [undefined]. *)
Inductive JsError : Type :=
  | Error (message : jsstring)
  | TypeError (message : jsstring).

Definition message (e : JsError) : jsstring :=
  match e with Error m => m | TypeError m => m end.

Inductive completion (A : Type) : Type :=
  | Return (a : A)
  | Throw (e : JsError).
Arguments Return {A} a.
Arguments Throw {A} e.

Definition bind {A B} (c : completion A) (k : A -> completion B) : completion B :=
  match c with
  | Return a => k a
  | Throw e => Throw e
  end.

Notation "x <- c ;; k" := (bind c (fun x => k))
  (at level 61, c at next level, right associativity).
Notation "c ;;; k" := (bind c (fun _ => k))
  (at level 61, right associativity).

(** The text of the TypeError for [undefined.prop]; the wording is the
    engine's (this is V8's). *)
Definition cannotRead (prop : string) : JsError :=
  TypeError (lit "Cannot read properties of undefined (reading '" ++ lit prop ++ lit "')").

(** The host functions the service calls but does not define. *)
Class Host : Type := {
  (** [new Date(s).getTime()]: milliseconds since the epoch, [None] for NaN
      (an invalid date). *)
  Date_getTime : jsstring -> option Z;
  (** [a.localeCompare(b)] *)
  localeCompare : jsstring -> jsstring -> Z
}.

(* ===================================================================== *)
(** ** src/services/directLineService.js *)
(* ===================================================================== *)

(** [activity.from] *)
Module Sender.
Record t : Type := mk {
    role : option jsstring;
    id : option jsstring;
    name : option jsstring
  }.
  (** [{}] in [activity.from || {}] *)
Definition empty : t := mk None None None.
End Sender.

(** A rich-card payload of [activity.attachments]. *)
Module Attachment.
Record t : Type := mk {
    contentType : option jsstring;
    contentUrl : option jsstring;
    title : option jsstring
  }.
End Attachment.

(** One event of the conversation log. *)
Module Activity.
Record t : Type := mk {
    id : option jsstring;
    type : option jsstring;
    text : option jsstring;
    timestamp : option jsstring;
    from : option Sender.t;
    attachments : option (list Attachment.t);
    attachmentLayout : option jsstring
  }.
End Activity.

(** The object [getLatestBotMessage] returns. *)
Module BotMessage.
Record t : Type := mk {
    text : jsstring;
    id : option jsstring;
    timestamp : option jsstring;
    attachments : list Attachment.t;
    attachmentLayout : option jsstring;
    activity : Activity.t
  }.
End BotMessage.

(** The parsed response body, [data]. *)
Module ApiBody.
Record err : Type := mkErr { err_code : option jsstring; err_message : option jsstring }.
Record t : Type := mk {
    activities : option (list Activity.t);
    watermark : option jsstring;
    eTag : option jsstring;
    error : option err;
    message : option jsstring
  }.
  (** [{}], what [response.json().catch(() => ({}))] gives for a body that
      does not parse. *)
Definition empty : t := mk None None None None None.
End ApiBody.

(** What [fetch] settles with. *)
Record Response : Type := mkResponse {
  ok : bool;
  status : Z;
  json : option ApiBody.t   (* [None]: [response.json()] rejects *)
}.

Inductive FetchOutcome : Type :=
  | Rejected (e : JsError)
  | Responded (r : Response).

Module DirectLine.

Definition BOT_ID : jsstring := lit "comm-cba1-conci-retailai7v5b1-bot".

(** [data.error?.message || data.message || `API error: ${response.status}`] *)
Definition defaultErrorMessage (data : ApiBody.t) (status : Z) : jsstring :=
  let fromError :=
    match ApiBody.error data with
    | Some e => ApiBody.err_message e
    | None => None
    end in
  or_else fromError
    (or_else (ApiBody.message data) (lit "API error: " ++ ofNumber status)).

(** Lines 35-48: the message of the Error thrown for a response that is
    not ok. *)
Definition errorMessageFor (data : ApiBody.t) (status : Z) : jsstring :=
  let errorMessage := defaultErrorMessage data status in
  if status =? 401 then
    lit "Unauthorized: Invalid Bearer Token. Please check your token."
  else if status =? 404 then
    lit "Conversation not found: Invalid Conversation ID."
  else if status =? 403 then
    lit "Forbidden: Token may not have access to this conversation."
  else errorMessage.

(** [getBotActivities(conversationId, bearerToken)], as a function of what
    the [fetch] it awaits settles with.  The [catch] of lines 95-98 rethrows. *)
Definition getBotActivities (conversationId bearerToken : jsstring)
    (net : FetchOutcome) : completion ApiBody.t :=
  if negb (truthy conversationId) || negb (truthy bearerToken) then
    Throw (Error (lit "Conversation ID and Bearer Token are required"))
  else
    match net with
    | Rejected e => Throw e
    | Responded response =>
        let data := match json response with Some d => d | None => ApiBody.empty end in
        if negb (ok response) then Throw (Error (errorMessageFor data (status response)))
        else Return data
    end.

(** The bot classifier of lines 161-166. *)
Definition isBot (activity : Activity.t) : bool :=
  let from := match Activity.from activity with Some f => f | None => Sender.empty end in
  match Sender.role from with Some r => eqb r (lit "bot") | None => false end
  || match Sender.id from with Some i => eqb i BOT_ID | None => false end
  || match Sender.id from with Some i => truthy i && includes (lit "bot") i | None => false end
  || match Sender.name from with Some n => eqb n (lit "Concierge") | None => false end.

Definition isMessage (activity : Activity.t) : bool :=
  match Activity.type activity with Some t => eqb t (lit "message") | None => false end.

Definition hasText (activity : Activity.t) : bool :=
  match Activity.text activity with
  | Some t => truthy t && (0 <? length (trim t))
  | None => false
  end.

Definition hasAttachments (activity : Activity.t) : bool :=
  match Activity.attachments activity with
  | Some l => 0 <? Z.of_nat (List.length l)
  | None => false
  end.

(** The callback of [.filter], lines 150-173. *)
Definition retained (activity : Activity.t) : bool :=
  if negb (isMessage activity) || (negb (hasText activity) && negb (hasAttachments activity))
  then false
  else if negb (isBot activity) then false
  else true.

Section WithHost.
Context {host : Host}.

(** The comparator of [.sort], lines 174-186; [None] is NaN. *)
Definition compareActivities (a b : Activity.t) : option Z :=
  if truthy_opt (Activity.timestamp a) && truthy_opt (Activity.timestamp b) then
    match Date_getTime (or_else (Activity.timestamp a) []),
          Date_getTime (or_else (Activity.timestamp b) []) with
    | Some timeA, Some timeB => Some (timeB - timeA)
    | _, _ => None
    end
  else if truthy_opt (Activity.id a) && truthy_opt (Activity.id b) then
    Some (localeCompare (or_else (Activity.id b) []) (or_else (Activity.id a) []))
  else Some 0.

End WithHost.

(** [Array.prototype.sort(comparefn)].  The language fixes the result for
    a consistent comparator: the stable sort.  This is a stable insertion
    sort; a NaN from the comparator counts as +0.  For a comparator that
    is not consistent the order is the engine's choice, and this is one. *)
Section Sort.
Context {A : Type} (comparefn : A -> A -> option Z).

Definition sortsAfter (x y : A) : bool :=
    match comparefn x y with
    | Some v => 0 <? v
    | None => false
    end.

Fixpoint insert (x : A) (l : list A) : list A :=
    match l with
    | [] => [x]
    | y :: r => if sortsAfter x y then y :: insert x r else x :: l
    end.

Fixpoint sort (l : list A) : list A :=
    match l with
    | [] => []
    | x :: r => insert x (sort r)
    end.
End Sort.

(** Lines 192-200: the argument of the [console.log] of each retained
    activity reads [activity.text.substring] and [activity.text.length]. *)
Fixpoint logBotActivities (botActivities : list Activity.t) : completion unit :=
  match botActivities with
  | [] => Return tt
  | activity :: rest =>
      match Activity.text activity with
      | None => Throw (cannotRead "substring")
      | Some _ => logBotActivities rest
      end
  end.

(** Lines 227-234. *)
Definition toBotMessage (latest : Activity.t) : BotMessage.t :=
  BotMessage.mk
    (match Activity.text latest with
     | Some t => if truthy t then trim t else []
     | None => []
     end)
    (Activity.id latest)
    (Activity.timestamp latest)
    (match Activity.attachments latest with Some l => l | None => [] end)
    (Activity.attachmentLayout latest)
    latest.

Section WithHost.
Context {host : Host}.

(** Lines 149-186. *)
Definition botActivitiesOf (activities : list Activity.t) : list Activity.t :=
  sort compareActivities (filter retained activities).

(** [getLatestBotMessage(activitiesData)]; [None] as argument is a null or
    undefined [activitiesData], [None] as result is [null]. *)
Definition getLatestBotMessage (activitiesData : option ApiBody.t)
    : completion (option BotMessage.t) :=
  match activitiesData with
  | None => Return None
  | Some data =>
      match ApiBody.activities data with
      | None => Return None
      | Some activities =>
          let botActivities := botActivitiesOf activities in
          (if 0 <? Z.of_nat (List.length botActivities)
           then logBotActivities botActivities
           else Return tt) ;;;
          match botActivities with
          | [] => Return None
          | latest :: _ => Return (Some (toBotMessage latest))
          end
      end
  end.

End WithHost.

End DirectLine.

(* ===================================================================== *)
(** ** A reference host *)
(* ===================================================================== *)

(** A concrete [Host] to run the service on: dates in the ECMAScript
    date-time string format with a UTC designator,
    [YYYY-MM-DDTHH:mm:ss(.f+)?Z], anything else being an invalid date; and
    [localeCompare] as the comparison of code units. *)
Module RefHost.

Definition digit (c : Z) : option Z :=
  if (48 <=? c) && (c <=? 57) then Some (c - 48) else None.

Fixpoint number (acc : Z) (ds : jsstring) : option Z :=
  match ds with
  | [] => Some acc
  | c :: r => match digit c with
              | Some d => number (10 * acc + d) r
              | None => None
              end
  end.

(** [n] digits read as a number, and the rest. *)
Definition field (n : nat) (s : jsstring) : option (Z * jsstring) :=
  if (List.length (firstn n s) =? n)%nat then
    match number 0 (firstn n s) with
    | Some v => Some (v, skipn n s)
    | None => None
    end
  else None.

Definition expect (c : Z) (s : jsstring) : option jsstring :=
  match s with
  | d :: r => if c =? d then Some r else None
  | [] => None
  end.

Definition isLeap (y : Z) : bool :=
  ((y mod 4 =? 0) && negb (y mod 100 =? 0)) || (y mod 400 =? 0).

Definition daysInMonth (y m : Z) : Z :=
  if m =? 2 then (if isLeap y then 29 else 28)
  else if (m =? 4) || (m =? 6) || (m =? 9) || (m =? 11) then 30 else 31.

(** Days from 1970-01-01 to the civil date. *)
Definition daysFromCivil (y m d : Z) : Z :=
  let y' := if m <=? 2 then y - 1 else y in
  let era := y' / 400 in
  let yoe := y' - era * 400 in
  let mp := (m + 9) mod 12 in
  let doy := (153 * mp + 2) / 5 + d - 1 in
  let doe := yoe * 365 + yoe / 4 - yoe / 100 + doy in
  era * 146097 + doe - 719468.

(** The fraction of a second, cut to milliseconds. *)
Definition millis (frac : jsstring) : option Z :=
  match frac with
  | [] => None
  | _ => number 0 (firstn 3 (frac ++ [48; 48]))
  end.

Definition fraction (s : jsstring) : option Z :=
  match s with
  | [90] => Some 0
  | 46 :: r =>
      match rev r with
      | 90 :: f => if forallb (fun c => match digit c with Some _ => true | None => false end) f
                   then millis (rev f) else None
      | _ => None
      end
  | _ => None
  end.

Definition opt_bind {A B} (o : option A) (k : A -> option B) : option B :=
  match o with Some a => k a | None => None end.

Definition getTime (s : jsstring) : option Z :=
  opt_bind (field 4 s) (fun '(y, s) =>
  opt_bind (expect 45 s) (fun s =>
  opt_bind (field 2 s) (fun '(mo, s) =>
  opt_bind (expect 45 s) (fun s =>
  opt_bind (field 2 s) (fun '(d, s) =>
  opt_bind (expect 84 s) (fun s =>
  opt_bind (field 2 s) (fun '(h, s) =>
  opt_bind (expect 58 s) (fun s =>
  opt_bind (field 2 s) (fun '(mi, s) =>
  opt_bind (expect 58 s) (fun s =>
  opt_bind (field 2 s) (fun '(sec, s) =>
  opt_bind (fraction s) (fun ms =>
  if (1 <=? mo) && (mo <=? 12) && (1 <=? d) && (d <=? daysInMonth y mo)
     && (h <=? 23) && (mi <=? 59) && (sec <=? 59)
  then Some ((((daysFromCivil y mo d * 24 + h) * 60 + mi) * 60 + sec) * 1000 + ms)
  else None)))))))))))).

Fixpoint compareUnits (a b : jsstring) : Z :=
  match a, b with
  | [], [] => 0
  | [], _ :: _ => -1
  | _ :: _, [] => 1
  | x :: a', y :: b' =>
      if x <? y then -1 else if y <? x then 1 else compareUnits a' b'
  end.

#[export] Instance host : Host := {|
  Date_getTime := getTime;
  localeCompare := compareUnits
|}.

End RefHost.

(* ===================================================================== *)
(** ** src/hooks/useDirectLineBotMessages.js *)
(* ===================================================================== *)

(** The hook is a state machine over the events of the page: the calls of
    [startPolling] and [stopPolling], the firing of a scheduled interval,
    and the settling of a [fetch] that a poll awaits.  JavaScript runs each
    of them to completion, so they are the atomic steps. *)
Module Polling.

(** The arguments of the hook.  [onBotMessage] says whether a callback was
    passed; its invocations are recorded in the world. *)
Record Props : Type := mkProps {
  conversationId : jsstring;
  bearerToken : jsstring;
  onBotMessage : bool;
  pollInterval : Z
}.

(** The state and the refs of one instance of the hook. *)
Record Hook : Type := mkHook {
  isPolling : bool;
  error : option jsstring;
  lastMessageRef : jsstring;
  lastActivityIdRef : jsstring;
  pollingIntervalRef : option positive;
  isActiveRef : bool
}.

(** One invocation of [onBotMessage]: its argument, and what the two
    dedup refs held when it was invoked. *)
Record Call : Type := mkCall {
  argument : jsstring;
  lastMessageAtCall : jsstring;
  lastActivityIdAtCall : jsstring
}.

(** The instance together with what the browser holds for it: the
    scheduled intervals (handle and period), the next timer handle, the
    number of polls awaiting their [fetch], and the invocations of the
    callback so far. *)
Record World : Type := mkWorld {
  hook : Hook;
  intervals : list (positive * Z);
  nextHandle : positive;
  inflight : nat;
  calls : list Call
}.

Definition initialHook : Hook := mkHook false None [] [] None false.
Definition initialWorld : World := mkWorld initialHook [] 1%positive O [].

Definition withHook (w : World) (h : Hook) : World :=
  mkWorld h (intervals w) (nextHandle w) (inflight w) (calls w).

Definition setError (e : option jsstring) (h : Hook) : Hook :=
  mkHook (isPolling h) e (lastMessageRef h) (lastActivityIdRef h)
         (pollingIntervalRef h) (isActiveRef h).

(** [clearInterval(handle)] *)
Definition clearInterval (handle : positive) (l : list (positive * Z)) : list (positive * Z) :=
  filter (fun e => negb (Pos.eqb (fst e) handle)) l.

Definition scheduled (handle : positive) (l : list (positive * Z)) : bool :=
  existsb (fun e => Pos.eqb (fst e) handle) l.

(** Lines 54-56. *)
Definition isNewMessage (latestActivityId latestMessage : jsstring) (h : Hook) : bool :=
  negb (eqb latestActivityId (lastActivityIdRef h))
  || negb (eqb latestMessage (lastMessageRef h)).

(** Lines 42-74: the delivery step on a selected message. *)
Definition deliver (props : Props) (latestMessageData : BotMessage.t) (w : World) : World :=
  let latestMessage := BotMessage.text latestMessageData in
  let latestActivityId := or_else (BotMessage.id latestMessageData) latestMessage in
  if isNewMessage latestActivityId latestMessage (hook w) then
    let h := hook w in
    let h' := mkHook (isPolling h) (error h) latestMessage latestActivityId
                     (pollingIntervalRef h) (isActiveRef h) in
    if onBotMessage props then
      mkWorld h' (intervals w) (nextHandle w) (inflight w)
              (calls w ++ [mkCall latestMessage (lastMessageRef h') (lastActivityIdRef h')])
    else withHook w h'
  else w.

Section WithHost.
Context {host : Host}.

(** [pollBotMessages] up to its [await]: [getBotActivities] checks its
    arguments and issues the [fetch]. *)
Definition pollBegin (props : Props) (w : World) : World :=
  if negb (truthy (conversationId props)) || negb (truthy (bearerToken props)) then
    withHook w (setError (Some (lit "Conversation ID and Bearer Token are required")) (hook w))
  else mkWorld (hook w) (intervals w) (nextHandle w) (S (inflight w)) (calls w).

(** [pollBotMessages] from its [await] on, lines 39-83, for what the
    [fetch] settled with. *)
Definition pollResume (props : Props) (net : FetchOutcome) (w : World) : World :=
  match
    activitiesData <- DirectLine.getBotActivities (conversationId props) (bearerToken props) net ;;
    DirectLine.getLatestBotMessage (Some activitiesData)
  with
  | Return (Some latestMessageData) => deliver props latestMessageData w
  | Return None => w
  | Throw err => withHook w (setError (Some (message err)) (hook w))
  end.

(** Lines 17-91. *)
Definition startPolling (props : Props) (w : World) : World :=
  if negb (truthy (conversationId props)) || negb (truthy (bearerToken props)) then w
  else if isActiveRef (hook w) then w
  else
    let h := hook w in
    let h1 := mkHook true None (lastMessageRef h) (lastActivityIdRef h)
                     (pollingIntervalRef h) true in
    let w1 := pollBegin props (withHook w h1) in
    let handle := nextHandle w1 in
    let h2 := hook w1 in
    mkWorld (mkHook (isPolling h2) (error h2) (lastMessageRef h2) (lastActivityIdRef h2)
                    (Some handle) (isActiveRef h2))
            (intervals w1 ++ [(handle, pollInterval props)])
            (Pos.succ handle) (inflight w1) (calls w1).

(** Lines 94-102. *)
Definition stopPolling (w : World) : World :=
  let h := hook w in
  let cleared :=
    match pollingIntervalRef h with
    | Some handle => (clearInterval handle (intervals w), None)
    | None => (intervals w, pollingIntervalRef h)
    end in
  mkWorld (mkHook false (error h) (lastMessageRef h) (lastActivityIdRef h)
                  (snd cleared) false)
          (fst cleared) (nextHandle w) (inflight w) (calls w).

Inductive Event : Type :=
  | StartPolling
  | StopPolling
  | IntervalFires (handle : positive)
  | FetchSettles (net : FetchOutcome).

(** One step of the page.  The browser runs the callback of an interval
    only while it is scheduled, and settles only a [fetch] that is
    awaited. *)
Definition step (props : Props) (ev : Event) (w : World) : World :=
  match ev with
  | StartPolling => startPolling props w
  | StopPolling => stopPolling w
  | IntervalFires handle =>
      if scheduled handle (intervals w) then pollBegin props w else w
  | FetchSettles net =>
      match inflight w with
      | O => w
      | S n =>
          pollResume props net
            (mkWorld (hook w) (intervals w) (nextHandle w) n (calls w))
      end
  end.

Fixpoint run (props : Props) (evs : list Event) (w : World) : World :=
  match evs with
  | [] => w
  | ev :: rest => run props rest (step props ev w)
  end.

End WithHost.

(** The scheduled intervals are those of the handle in
    [pollingIntervalRef], and there is none while the hook is not active. *)
Definition tidy (w : World) : Prop :=
  (isActiveRef (hook w) = false -> intervals w = [])
  /\ (forall e, In e (intervals w) -> pollingIntervalRef (hook w) = Some (fst e)).

(** A stopped instance: no interval and no handle. *)
Definition stopped (w : World) : Prop :=
  intervals w = [] /\ pollingIntervalRef (hook w) = None.

End Polling.

(* ===================================================================== *)
(** ** src/hooks/useTypingDetection.js: useChatbotMessages *)
(* ===================================================================== *)

(** The stabilization detector.  What the document shows at a check (the
    result of [extractBotMessages()] and of [isBotTyping()]) and the clock
    are inputs of the check; the variables of the effect's closure and the
    browser's pending timeouts are its state. *)
Module Stabilizer.

Definition STABILIZATION_DELAY : Z := 800.
Definition MIN_STABILIZATION_COUNT : Z := 1.

(** Lines 284-290: the variables of the closure. *)
Record Vars : Type := mkVars {
  lastProcessedText : jsstring;
  lastProcessedTime : Z;
  messageStabilizationTimeout : option positive;
  lastSeenText : jsstring;
  stabilizationCount : Z
}.

(** The closure with the browser's pending timeouts (handle and due
    time), the next timer handle, and the arguments [onBotMessage] was
    invoked with so far. *)
Record World : Type := mkWorld {
  vars : Vars;
  timeouts : list (positive * Z);
  nextHandle : positive;
  delivered : list jsstring
}.

(** What a check reads from outside: [Date.now()], [isBotTyping()] and
    the texts of [extractBotMessages()], in document order. *)
Record Env : Type := mkEnv {
  now : Z;
  botTyping : bool;
  botMessages : list jsstring
}.

Definition initialVars : Vars := mkVars [] 0 None [] 0.
Definition initialWorld : World := mkWorld initialVars [] 1%positive [].

(** [s.replace(/[\u{lo}-\u{hi}]/gu, '')]: with the [u] flag a surrogate
    pair is matched as the code point it encodes. *)
Definition isHigh (c : Z) : bool := (55296 <=? c) && (c <=? 56319).
Definition isLow (c : Z) : bool := (56320 <=? c) && (c <=? 57343).
Definition codePoint (hi lo : Z) : Z := 65536 + (hi - 55296) * 1024 + (lo - 56320).
Definition inRange (lo hi c : Z) : bool := (lo <=? c) && (c <=? hi).

Fixpoint removeRange (lo hi : Z) (s : jsstring) : jsstring :=
  match s with
  | [] => []
  | c :: tl =>
      match tl with
      | d :: r =>
          if isHigh c && isLow d then
            if inRange lo hi (codePoint c d) then removeRange lo hi r
            else c :: d :: removeRange lo hi r
          else if inRange lo hi c then removeRange lo hi tl
          else c :: removeRange lo hi tl
      | [] => if inRange lo hi c then [] else [c]
      end
  end.

(** [s.replace(/\s+/g, ' ')] *)
Fixpoint collapseSpaces (inRun : bool) (s : jsstring) : jsstring :=
  match s with
  | [] => []
  | c :: r =>
      if isWhiteSpace c then
        if inRun then collapseSpaces true r else 32 :: collapseSpaces true r
      else c :: collapseSpaces false r
  end.

(** Lines 360-366. *)
Definition cleanText (currentText : jsstring) : jsstring :=
  trim
    (collapseSpaces false
      (removeRange 129536 129791     (* 1FA00-1FAFF *)
        (removeRange 9984 10175      (* 2700-27BF *)
          (removeRange 9728 9983     (* 2600-26FF *)
            (removeRange 127744 129535 currentText))))).  (* 1F300-1F9FF *)

Definition withVars (w : World) (v : Vars) : World :=
  mkWorld v (timeouts w) (nextHandle w) (delivered w).

(** [clearTimeout(handle)] *)
Definition clearTimeout (handle : positive) (l : list (positive * Z)) : list (positive * Z) :=
  filter (fun e => negb (Pos.eqb (fst e) handle)) l.

(** [botMessages[botMessages.length - 1]] *)
Definition latestOf (botMessages : list jsstring) : option jsstring :=
  match rev botMessages with
  | m :: _ => Some m
  | [] => None
  end.

(** Lines 313-385.  [onBotMessage] says whether the hook was given a
    callback. *)
Definition checkAndProcessStableMessage (onBotMessage : bool) (immediate : bool)
    (env : Env) (w : World) : World :=
  if botTyping env && negb immediate then w
  else
    match latestOf (botMessages env) with
    | None => w
    | Some latestMessage =>
        let v := vars w in
        let currentText := or_else (Some latestMessage) [] in
        if negb (eqb currentText (lastSeenText v))
           && (length (lastSeenText v) <? length currentText) then
          (* the message is growing: record it and re-arm the timeout *)
          let pending :=
            match messageStabilizationTimeout v with
            | Some old => clearTimeout old (timeouts w)
            | None => timeouts w
            end in
          let handle := nextHandle w in
          mkWorld
            (mkVars (lastProcessedText v) (lastProcessedTime v) (Some handle) currentText 0)
            (pending ++ [(handle, now env + STABILIZATION_DELAY)])
            (Pos.succ handle)
            (delivered w)
        else if eqb currentText (lastSeenText v) && (5 <? length currentText) then
          let count := stabilizationCount v + 1 in
          let v1 := mkVars (lastProcessedText v) (lastProcessedTime v)
                           (messageStabilizationTimeout v) (lastSeenText v) count in
          if immediate || (MIN_STABILIZATION_COUNT <=? count) then
            let isNew := negb (eqb currentText (lastProcessedText v))
                         || (5000 <? now env - lastProcessedTime v) in
            let w1 :=
              if isNew && onBotMessage && truthy currentText then
                let clean := cleanText currentText in
                if truthy clean && (5 <? length clean) then
                  mkWorld
                    (mkVars currentText (now env) (messageStabilizationTimeout v)
                            (lastSeenText v) 0)
                    (timeouts w) (nextHandle w) (delivered w ++ [clean])
                else withVars w v1
              else withVars w v1 in
            let v2 := vars w1 in
            withVars w1
              (mkVars (lastProcessedText v2) (lastProcessedTime v2)
                      (messageStabilizationTimeout v2) (lastSeenText v2) 0)
          else withVars w v1
        else w
    end.

(** The events of the page that reach the detector: a check from the
    MutationObserver or from the 500 ms interval, and the firing of a
    pending timeout, which runs the check in immediate mode. *)
Inductive Event : Type :=
  | Check (env : Env)
  | TimeoutFires (handle : positive) (env : Env).

Definition due (handle : positive) (l : list (positive * Z)) : option Z :=
  match filter (fun e => Pos.eqb (fst e) handle) l with
  | e :: _ => Some (snd e)
  | [] => None
  end.

(** A timeout fires only while pending and not before it is due; firing
    removes it. *)
Definition step (onBotMessage : bool) (ev : Event) (w : World) : World :=
  match ev with
  | Check env => checkAndProcessStableMessage onBotMessage false env w
  | TimeoutFires handle env =>
      match due handle (timeouts w) with
      | Some t =>
          if t <=? now env then
            checkAndProcessStableMessage onBotMessage true env
              (mkWorld (vars w) (clearTimeout handle (timeouts w)) (nextHandle w) (delivered w))
          else w
      | None => w
      end
  end.

Fixpoint run (onBotMessage : bool) (evs : list Event) (w : World) : World :=
  match evs with
  | [] => w
  | ev :: rest => run onBotMessage rest (step onBotMessage ev w)
  end.

Definition eventTime (ev : Event) : Z :=
  match ev with Check env => now env | TimeoutFires _ env => now env end.

(** A schedule the browser can produce: time does not go back, no event
    runs after a pending timeout was due without that timeout having
    fired, and a timeout fires at the time it is due. *)
Fixpoint punctual (onBotMessage : bool) (clock : Z) (evs : list Event) (w : World) : bool :=
  match evs with
  | [] => true
  | ev :: rest =>
      (clock <=? eventTime ev)
      && forallb (fun e => eventTime ev <=? snd e) (timeouts w)
      && match ev with
         | Check _ => true
         | TimeoutFires handle _ =>
             match due handle (timeouts w) with
             | Some t => t =? eventTime ev
             | None => false
             end
         end
      && punctual onBotMessage (eventTime ev) rest (step onBotMessage ev w)
  end.




End Stabilizer.

(* ===================================================================== *)
(** ** The selection as the specification words it *)
(* ===================================================================== *)

(** The specification's selection: the retained activities sorted
    descending by parsed timestamp, with the descending comparison of ids
    as the fallback when either side lacks a timestamp and when the
    timestamps tie; the head, or none.  To be compared with
    [DirectLine.getLatestBotMessage]. *)
Module Claimed.
Section WithHost.
Context {host : Host}.

Definition idFallback (a b : Activity.t) : option Z :=
  if truthy_opt (Activity.id a) && truthy_opt (Activity.id b) then
    Some (localeCompare (or_else (Activity.id b) []) (or_else (Activity.id a) []))
  else Some 0.

Definition compareActivities (a b : Activity.t) : option Z :=
  if truthy_opt (Activity.timestamp a) && truthy_opt (Activity.timestamp b) then
    match Date_getTime (or_else (Activity.timestamp a) []),
          Date_getTime (or_else (Activity.timestamp b) []) with
    | Some timeA, Some timeB =>
        if timeB - timeA =? 0 then idFallback a b else Some (timeB - timeA)
    | _, _ => None
    end
  else idFallback a b.

Definition latestBotMessage (activities : list Activity.t) : option BotMessage.t :=
  match DirectLine.sort compareActivities (filter DirectLine.retained activities) with
  | latest :: _ => Some (DirectLine.toBotMessage latest)
  | [] => None
  end.

End WithHost.
End Claimed.

(* ===================================================================== *)
(** ** Orders on the retained activities *)
(* ===================================================================== *)

(** A comparator is consistent on [l] when "sorts after" is asymmetric
    and "does not sort after" is transitive on the elements of [l]; the
    language fixes what [sort] returns only then. *)
Definition consistentOn {A} (comparefn : A -> A -> option Z) (l : list A) : Prop :=
  (forall x y, In x l -> In y l ->
     DirectLine.sortsAfter comparefn x y = true ->
     DirectLine.sortsAfter comparefn y x = false) /\
  (forall x y z, In x l -> In y l -> In z l ->
     DirectLine.sortsAfter comparefn x y = false ->
     DirectLine.sortsAfter comparefn y z = false ->
     DirectLine.sortsAfter comparefn x z = false).

(** The parsed time of an activity that has a timestamp which is a date. *)
Definition timeOf {host : Host} (a : Activity.t) : option Z :=
  match Activity.timestamp a with
  | Some s => if truthy s then Date_getTime s else None
  | None => None
  end.

(* ===================================================================== *)
(** ** Concrete logs, responses and schedules *)
(* ===================================================================== *)

Module Examples.

Definition bot : option Sender.t :=
  Some (Sender.mk (Some (lit "bot")) (Some (lit "concierge-1")) None).

Definition say (id text timestamp : string) : Activity.t :=
  Activity.mk (Some (lit id)) (Some (lit "message")) (Some (lit text))
              (Some (lit timestamp)) bot None None.

(** A hero card: attachments and no text. *)
Definition card (id timestamp : string) : Activity.t :=
  Activity.mk (Some (lit id)) (Some (lit "message")) None (Some (lit timestamp)) bot
              (Some [Attachment.mk (Some (lit "application/vnd.microsoft.card.hero"))
                                   None (Some (lit "Lot 12"))])
              None.

Definition body (activities : list Activity.t) : ApiBody.t :=
  ApiBody.mk (Some activities) None None None None.

(** Two bot messages with the same timestamp. *)
Definition tieLog : list Activity.t :=
  [ say "A1" "Welcome" "2024-03-01T12:00:00Z";
    say "A2" "How can I help?" "2024-03-01T12:00:00Z" ].

(** A bot message without a timestamp. *)
Definition note (id text : string) : Activity.t :=
  Activity.mk (Some (lit id)) (Some (lit "message")) (Some (lit text)) None bot None None.

(** No timestamp anywhere: the ids decide. *)
Definition idLog : list Activity.t :=
  [ note "A2" "How can I help?";
    note "A3" "Anything else?";
    note "A1" "Welcome" ].

(** One side lacks a timestamp: the ids decide. *)
Definition mixedPair : list Activity.t :=
  [ say "A1" "Welcome" "2024-03-01T12:00:00Z";
    note "A5" "Anything else?" ].

Definition orderedLog : list Activity.t :=
  [ say "A1" "Welcome" "2024-03-01T12:00:00Z";
    say "A3" "Anything else?" "2024-03-01T12:00:09Z";
    say "A2" "How can I help?" "2024-03-01T12:00:05Z" ].

Definition cardLog : list Activity.t :=
  [ say "A1" "Welcome" "2024-03-01T12:00:00Z";
    card "A2" "2024-03-01T12:00:05Z" ].

Definition props : Polling.Props :=
  Polling.mkProps (lit "conv-1") (lit "token-1") true 2000.

Definition okResponse (activities : list Activity.t) : Response :=
  mkResponse true 200 (Some (body activities)).

Definition failed (status : Z) : Response := mkResponse false status None.

Definition greatChoice : jsstring :=
  lit "Great choice! " ++ [55356; 57225] ++ lit " Let's proceed".   (* U+1F389 *)

Definition shows (t : Z) (text : string) : Stabilizer.Env :=
  Stabilizer.mkEnv t false [lit text].

End Examples.

From Stdlib Require Import Sorting.Permutation Sorting.Sorted.

(* ===================================================================== *)
(** ** src/services/directLineService.js: extractBotMessages *)
(* ===================================================================== *)

Module BotTexts.

(** The callback of the first [.filter], lines 112-126. *)
Definition keepsText (activity : Activity.t) : bool :=
  let noText :=
    match Activity.text activity with
    | Some t => negb (truthy t) || (length (trim t) =? 0)
    | None => true
    end in
  if negb (DirectLine.isMessage activity) || noText then false
  else DirectLine.isBot activity.

(** [.map(activity => activity.text.trim())], line 127: the read of
    [trim] on a missing text would raise. *)
Fixpoint trimmedTexts (l : list Activity.t) : completion (list jsstring) :=
  match l with
  | [] => Return []
  | activity :: rest =>
      match Activity.text activity with
      | None => Throw (cannotRead "trim")
      | Some t => texts <- trimmedTexts rest ;; Return (trim t :: texts)
      end
  end.

(** [self.indexOf(text)]: the first index, or -1. *)
Fixpoint indexOf (text : jsstring) (self : list jsstring) : Z :=
  match self with
  | [] => -1
  | t :: rest =>
      if eqb t text then 0
      else let i := indexOf text rest in if i <? 0 then -1 else 1 + i
  end.

(** [.filter((x, index) => ...)] from position [index] on. *)
Fixpoint filterAt {A} (f : A -> Z -> bool) (index : Z) (l : list A) : list A :=
  match l with
  | [] => []
  | x :: rest =>
      if f x index then x :: filterAt f (index + 1) rest
      else filterAt f (index + 1) rest
  end.

(** [extractBotMessages(activitiesData)], lines 106-131. *)
Definition extractBotMessages (activitiesData : option ApiBody.t)
    : completion (list jsstring) :=
  match activitiesData with
  | None => Return []
  | Some data =>
      match ApiBody.activities data with
      | None => Return []
      | Some activities =>
          texts <- trimmedTexts (filter keepsText activities) ;;
          Return (filterAt (fun text index => indexOf text texts =? index) 0 texts)
      end
  end.

End BotTexts.

(* ===================================================================== *)
(** ** Invariants of the polling hook *)
(* ===================================================================== *)

Module PollingState.
Import Polling.

(** The flags, the handle and the browser's intervals agree: the hook is
    polling exactly when its one interval is scheduled. *)
Definition steady (props : Props) (w : World) : Prop :=
  isPolling (hook w) = isActiveRef (hook w)
  /\ match pollingIntervalRef (hook w) with
     | Some handle =>
         isActiveRef (hook w) = true /\ intervals w = [(handle, pollInterval props)]
     | None => isActiveRef (hook w) = false /\ intervals w = []
     end.

(** Two invocations of the callback that carry the same text for the
    same key. *)
Definition sameDelivery (c1 c2 : Call) : Prop :=
  argument c1 = argument c2 /\ lastActivityIdAtCall c1 = lastActivityIdAtCall c2.

(** The callback log is in step with the dedup refs: the last invocation
    was made with the refs as they are now, and no two invocations in a
    row are the same delivery. *)
Definition inStep (w : World) : Prop :=
  (forall pre c, calls w = pre ++ [c] ->
     argument c = lastMessageRef (hook w)
     /\ lastActivityIdAtCall c = lastActivityIdRef (hook w))
  /\ (forall pre c1 c2 post, calls w = pre ++ c1 :: c2 :: post -> ~ sameDelivery c1 c2).

End PollingState.

(* ===================================================================== *)
(** ** Invariants of the stabilization detector *)
(* ===================================================================== *)

Module StabilizerState.
Import Stabilizer.

(** The first code unit, if any, is not white space. *)
Definition headNotSpace (s : jsstring) : bool :=
  match s with
  | c :: _ => negb (isWhiteSpace c)
  | [] => true
  end.

(** Every white space of [s] is a U+0020 that is followed by something
    that is not white space, or by nothing. *)
Fixpoint singleSpaced (s : jsstring) : bool :=
  match s with
  | [] => true
  | c :: rest =>
      (negb (isWhiteSpace c) || (c =? 32) && headNotSpace rest) && singleSpaced rest
  end.

(** What the check of an event reads. *)
Definition eventEnv (ev : Event) : Env :=
  match ev with Check env => env | TimeoutFires _ env => env end.

(** At most one timeout is pending, and it is the one whose handle the
    closure holds. *)
Definition armedOnce (w : World) : Prop :=
  timeouts w = []
  \/ exists handle dueAt,
       timeouts w = [(handle, dueAt)]
       /\ messageStabilizationTimeout (vars w) = Some handle.

End StabilizerState.

(* ===================================================================== *)
(** ** src/hooks/useTypingDetection.js: extractBotMessages, isBotTyping *)
(* ===================================================================== *)

(** Only ASCII characters. *)
Definition asciiOnly (s : jsstring) : bool :=
  forallb (fun c => (0 <=? c) && (c <? 128)) s.

(** [String.prototype.toLowerCase], which follows the Unicode case
    mappings of the engine; on a string of ASCII characters these lower
    the letters A-Z and nothing else. *)
Class Unicode : Type := {
  toLowerCase : jsstring -> jsstring;
  toLowerCase_ascii : forall s, asciiOnly s = true -> toLowerCase s = toLowerASCII s
}.

(** The document as the hook reads it: what its queries return. *)
Module Dom.

(** The [class] attribute of a node and the [text-align] of its computed
    style. *)
Record Node : Type := mkNode {
  classes : jsstring;
  textAlign : jsstring
}.

(** An element with its ancestors, the parent first. *)
Record Element : Type := mkElement {
  textContent : option jsstring;
  tagName : jsstring;
  self : Node;
  ancestors : list Node
}.

(** The computed style of a typing indicator. *)
Record Style : Type := mkStyle {
  display : jsstring;
  visibility : jsstring;
  opacity : jsstring
}.

(** The webchat element found by the lookups of lines 137-150: the
    matches of the nine selectors of lines 160-173, concatenated in the
    order of the selectors, and the matches of ['div']. *)
Record Webchat : Type := mkWebchat {
  selected : list Element;
  allDivs : list Element
}.

(** [webchat] is what [extractBotMessages] finds, [indicators] what the
    query of [isBotTyping] finds under the element it looks up by id
    ([None]: no such element). *)
Record Document : Type := mkDocument {
  webchat : option Webchat;
  indicators : option (list Style)
}.

(** An entry of the result of [extractBotMessages]. *)
Record Message : Type := mkMessage {
  text : jsstring;
  element : Element;
  timestamp : Z
}.

(** [el.closest('[class*="part"]')]: the element or an ancestor has a
    class attribute that contains [part]. *)
Definition closest (part : string) (el : Element) : bool :=
  existsb (fun n => includes (lit part) (classes n)) (self el :: ancestors el).

(** [el.textContent?.trim()] *)
Definition trimmedText (el : Element) : option jsstring :=
  match textContent el with
  | Some t => Some (trim t)
  | None => None
  end.

Section WithUnicode.
Context {unicode : Unicode}.

(** The test of lines 188-200 on a [div]. *)
Definition looksLikeMessage (div : Element) : bool :=
  match trimmedText div with
  | Some text =>
      if truthy text && (10 <? length text) && (length text <? 2000) then
        let classStr := or_else (Some (toLowerCase (classes (self div)))) [] in
        let parentClassStr :=
          match ancestors div with
          | parent :: _ => or_else (Some (toLowerCase (classes parent))) []
          | [] => []
          end in
        negb (includes (lit "container") classStr)
        && negb (includes (lit "wrapper") classStr)
        && negb (includes (lit "panel") classStr)
        && negb (includes (lit "user") parentClassStr)
      else false
  | None => false
  end.

(** Lines 205-214: the first element of each text. *)
Fixpoint unique (seenTexts : list jsstring) (messageElements : list Element)
    : list Element :=
  match messageElements with
  | [] => []
  | el :: rest =>
      match trimmedText el with
      | Some text =>
          if truthy text && negb (existsb (eqb text) seenTexts)
          then el :: unique (text :: seenTexts) rest
          else unique seenTexts rest
      | None => unique seenTexts rest
      end
  end.

(** Lines 223-227. *)
Definition allClasses (el : Element) : jsstring :=
  let classStr := toLowerCase (classes (self el)) in
  let parentClassStr :=
    match ancestors el with
    | parent :: _ => or_else (Some (toLowerCase (classes parent))) []
    | [] => []
    end in
  let grandParentClassStr :=
    match ancestors el with
    | _ :: grandParent :: _ => or_else (Some (toLowerCase (classes grandParent))) []
    | _ => []
    end in
  toLowerCase (classStr ++ lit " " ++ parentClassStr ++ lit " " ++ grandParentClassStr).

(** Lines 230-238. *)
Definition isUserMessage (el : Element) : bool :=
  includes (lit "user") (allClasses el)
  || includes (lit "sender") (allClasses el)
  || includes (lit "my-message") (allClasses el)
  || closest "user" el
  || closest "sender" el
  || closest "my-message" el
  || eqb (tagName el) (lit "INPUT")
  || eqb (tagName el) (lit "TEXTAREA").

(** Lines 245-257. *)
Definition isBot (el : Element) : bool :=
  includes (lit "bot") (allClasses el)
  || includes (lit "assistant") (allClasses el)
  || includes (lit "agent") (allClasses el)
  || includes (lit "system") (allClasses el)
  || includes (lit "message") (allClasses el)
  || closest "bot" el
  || closest "assistant" el
  || closest "agent" el
  || match ancestors el with
     | parent :: _ => eqb (textAlign parent) (lit "left")
     | [] => false
     end
  || true.

(** The callback of [.map], lines 218-273; [None] is [null]. *)
Definition classify (now : Z) (el : Element) : option Message :=
  match trimmedText el with
  | None => None
  | Some text =>
      if negb (truthy text) || (length text <? 5) then None
      else if isUserMessage el then None
      else if (length text <? 10)
              || eqb (toLowerCase text) (lit "typing...")
              || eqb (toLowerCase text) (lit "loading...")
              || includes (lit "click to send") (toLowerCase text)
      then None
      else if isBot el && truthy text then Some (mkMessage text el now)
      else None
  end.

(** [.map(...).filter(Boolean)] *)
Fixpoint classified (now : Z) (l : list Element) : list Message :=
  match l with
  | [] => []
  | el :: rest =>
      match classify now el with
      | Some m => m :: classified now rest
      | None => classified now rest
      end
  end.

(** [extractBotMessages()], lines 135-281, at the time [now]. *)
Definition extractBotMessages (doc : Document) (now : Z) : list Message :=
  match webchat doc with
  | None => []
  | Some webchatElement =>
      let messageElements :=
        selected webchatElement ++ filter looksLikeMessage (allDivs webchatElement) in
      classified now (unique [] messageElements)
  end.

End WithUnicode.

(** [isBotTyping()], lines 295-310. *)
Definition isBotTyping (doc : Document) : bool :=
  match indicators doc with
  | None => false
  | Some typingIndicators =>
      existsb (fun style =>
                 negb (eqb (display style) (lit "none"))
                 && negb (eqb (visibility style) (lit "hidden"))
                 && negb (eqb (opacity style) (lit "0")))
              typingIndicators
  end.

Section WithUnicode.
Context {unicode : Unicode}.

(** [checkAndProcessStableMessage(immediate)] on a document: what the
    check reads is what the two functions above return. *)
Definition checkDocument (onBotMessage immediate : bool) (doc : Document) (now : Z)
    (w : Stabilizer.World) : Stabilizer.World :=
  Stabilizer.checkAndProcessStableMessage onBotMessage immediate
    (Stabilizer.mkEnv now (isBotTyping doc) (map text (extractBotMessages doc now))) w.





End WithUnicode.

(** Documents in ASCII: the texts and class attributes the extraction
    lower-cases are ASCII. *)
Definition asciiNode (n : Node) : bool := asciiOnly (classes n).

Definition asciiElement (el : Element) : bool :=
  match textContent el with Some t => asciiOnly t | None => true end
  && asciiNode (self el) && forallb asciiNode (ancestors el).

Definition asciiDocument (doc : Document) : bool :=
  match webchat doc with
  | Some chat => forallb asciiElement (selected chat) && forallb asciiElement (allDivs chat)
  | None => true
  end.

(** The lower-casing to run the extraction with on a document in ASCII,
    where it is the lower-casing of every engine. *)
Definition asciiCase : Unicode :=
  {| toLowerCase := toLowerASCII; toLowerCase_ascii := fun _ _ => eq_refl |}.

End Dom.

(* ===================================================================== *)
(** ** src/hooks/useTypingDetection.js: useTypingDetection *)
(* ===================================================================== *)

Module TypingDetection.

(** An input field: [input.value] and [input.textContent]. *)
Record Input : Type := mkInput {
  value : option jsstring;
  inputText : option jsstring
}.

(** What the two queries return under the webchat element. *)
Record Webchat : Type := mkWebchat {
  inputs : list Input;
  typingElements : list Dom.Style
}.

(** The state of the hook with the browser's pending timeouts. *)
Record World : Type := mkWorld {
  isTyping : bool;
  typingTimeoutRef : option positive;
  timeouts : list (positive * Z);
  nextHandle : positive
}.

Definition initialWorld : World := mkWorld false None [] 1%positive.

(** [a || b || ''] on two optional strings. *)
Definition firstTruthy (a b : option jsstring) : jsstring :=
  if truthy_opt a then or_else a [] else or_else b [].

(** [detectTyping()], lines 13-32. *)
Definition detectTyping (webchatElement : option Webchat) : bool :=
  match webchatElement with
  | None => false
  | Some chat =>
      existsb (fun input =>
                 0 <? length (trim (firstTruthy (value input) (inputText input))))
              (inputs chat)
  end.

(** [checkTypingIndicator()], lines 35-48. *)
Definition checkTypingIndicator (webchatElement : option Webchat) : bool :=
  match webchatElement with
  | None => false
  | Some chat =>
      existsb (fun style =>
                 negb (eqb (Dom.display style) (lit "none"))
                 && negb (eqb (Dom.visibility style) (lit "hidden")))
              (typingElements chat)
  end.

Definition clearTimeout (handle : positive) (l : list (positive * Z)) : list (positive * Z) :=
  filter (fun e => negb (Pos.eqb (fst e) handle)) l.

(** [checkTyping()], lines 51-69, at the time [now]. *)
Definition checkTyping (webchatElement : option Webchat) (now : Z) (w : World) : World :=
  let userTyping := detectTyping webchatElement in
  let typingIndicator := checkTypingIndicator webchatElement in
  let currentlyTyping := userTyping || typingIndicator in
  let pending :=
    match typingTimeoutRef w with
    | Some handle => clearTimeout handle (timeouts w)
    | None => timeouts w
    end in
  if currentlyTyping then
    mkWorld currentlyTyping (Some (nextHandle w))
            (pending ++ [(nextHandle w, now + 2000)]) (Pos.succ (nextHandle w))
  else mkWorld currentlyTyping (typingTimeoutRef w) pending (nextHandle w).

(** A check (an input event, a mutation or the 500 ms interval), and the
    firing of a pending timeout, which runs [setIsTyping(false)]. *)
Inductive Event : Type :=
  | Check (webchatElement : option Webchat) (now : Z)
  | TimeoutFires (handle : positive) (now : Z).

Definition due (handle : positive) (l : list (positive * Z)) : option Z :=
  match filter (fun e => Pos.eqb (fst e) handle) l with
  | e :: _ => Some (snd e)
  | [] => None
  end.

Definition step (ev : Event) (w : World) : World :=
  match ev with
  | Check webchatElement now => checkTyping webchatElement now w
  | TimeoutFires handle now =>
      match due handle (timeouts w) with
      | Some t =>
          if t <=? now then
            mkWorld false (typingTimeoutRef w) (clearTimeout handle (timeouts w))
                    (nextHandle w)
          else w
      | None => w
      end
  end.

Fixpoint run (evs : list Event) (w : World) : World :=
  match evs with
  | [] => w
  | ev :: rest => run rest (step ev w)
  end.

(** The flag is up exactly while its one reset timeout is pending. *)
Definition flagged (w : World) : Prop :=
  (isTyping w = false /\ timeouts w = [])
  \/ (isTyping w = true
      /\ exists handle dueAt,
           timeouts w = [(handle, dueAt)] /\ typingTimeoutRef w = Some handle).

End TypingDetection.

(* ===================================================================== *)
(** ** More concrete inputs *)
(* ===================================================================== *)

Module MoreExamples.

(** An old card without text, then a newer message with text. *)
Definition staleCardLog : list Activity.t :=
  [ Examples.card "A1" "2024-03-01T12:00:00Z";
    Examples.say "A2" "Welcome" "2024-03-01T12:00:05Z" ].

(** A start, a first poll that finds "Welcome", and a second one, after
    an interval firing, that finds "Anything else?". *)
Definition twoPolls : list Polling.Event :=
  [ Polling.StartPolling;
    Polling.FetchSettles (Responded (Examples.okResponse Examples.tieLog));
    Polling.IntervalFires 1;
    Polling.FetchSettles (Responded (Examples.okResponse Examples.orderedLog)) ].

(** A text shown at 0 and delivered by its timeout at 800. *)
Definition delivered800 : list Stabilizer.Event :=
  [ Stabilizer.Check (Examples.shows 0 "Hello world");
    Stabilizer.TimeoutFires 1 (Examples.shows 800 "Hello world") ].

Definition plain : Dom.Node := Dom.mkNode [] (lit "start").

Definition bubble (classes text : string) (ancestors : list Dom.Node) : Dom.Element :=
  Dom.mkElement (Some (lit text)) (lit "DIV") (Dom.mkNode (lit classes) (lit "start"))
                ancestors.

(** A webchat with a bot bubble (found by two selectors), a user bubble,
    a typing placeholder and a short bot reply. *)
Definition chat : Dom.Webchat :=
  Dom.mkWebchat
    [ bubble "msg-bubble" "  Welcome to the salon  " [plain];
      bubble "msg-bubble" "Welcome to the salon" [plain];
      bubble "msg-bubble" "I would like to bid" [Dom.mkNode (lit "row User-row") (lit "right")];
      bubble "msg-bubble" "Typing..." [plain];
      bubble "msg-bubble" "Sold!" [plain] ]
    [ bubble "" "The next lot is a landscape" [plain] ].

Definition page : Dom.Document := Dom.mkDocument (Some chat) (Some []).





End MoreExamples.

(* ===================================================================== *)
(** * Properties *)
(* ===================================================================== *)

(** ** Strings and completions *)

Lemma eqb_eq a b : eqb a b = true <-> a = b.
Proof. unfold eqb. destruct (list_eq_dec Z.eq_dec a b); split; congruence. Qed.

Lemma eqb_neq a b : eqb a b = false <-> a <> b.
Proof. unfold eqb. destruct (list_eq_dec Z.eq_dec a b); split; congruence. Qed.

Lemma eqb_refl a : eqb a a = true.
Proof. now apply eqb_eq. Qed.

Lemma negb_eqb_true a b : negb (eqb a b) = true <-> a <> b.
Proof. rewrite negb_true_iff. apply eqb_neq. Qed.

Lemma or_else_some (s d : jsstring) : or_else (Some s) d = if truthy s then s else d.
Proof. reflexivity. Qed.

(** ** getBotActivities: the status of a failed response *)

Lemma getBotActivities_not_ok cid tok r :
  truthy cid = true -> truthy tok = true -> ok r = false ->
  DirectLine.getBotActivities cid tok (Responded r) =
  Throw (Error (DirectLine.errorMessageFor
                  (match json r with Some d => d | None => ApiBody.empty end)
                  (status r))).
Proof.
  intros Hc Ht Hok. unfold DirectLine.getBotActivities.
  rewrite Hc, Ht, Hok. reflexivity.
Qed.

(** C5, as amended.  A fetch that is answered with a response that is
    not ok makes [getBotActivities] throw an Error whose message is fixed
    by the status: for 401 it is "Unauthorized: Invalid Bearer Token.
    Please check your token.", for 403 "Forbidden: Token may not have
    access to this conversation.", for 404 "Conversation not found:
    Invalid Conversation ID.", so that the messages contain
    "Unauthorized", "Forbidden" and "Conversation not found", with the
    capital; for any other status it is the body's [error.message] if
    there is one, else the body's [message] if there is one, else
    "API error: " followed by the status. *)
Theorem getBotActivities_error_by_status cid tok r :
  truthy cid = true -> truthy tok = true -> ok r = false ->
  exists msg,
    DirectLine.getBotActivities cid tok (Responded r) = Throw (Error msg) /\
    (status r = 401 ->
       msg = lit "Unauthorized: Invalid Bearer Token. Please check your token."
       /\ includes (lit "Unauthorized") msg = true) /\
    (status r = 403 ->
       msg = lit "Forbidden: Token may not have access to this conversation."
       /\ includes (lit "Forbidden") msg = true) /\
    (status r = 404 ->
       msg = lit "Conversation not found: Invalid Conversation ID."
       /\ includes (lit "Conversation not found") msg = true) /\
    (status r <> 401 -> status r <> 403 -> status r <> 404 ->
       let data := match json r with Some d => d | None => ApiBody.empty end in
       msg = or_else (match ApiBody.error data with
                      | Some e => ApiBody.err_message e
                      | None => None
                      end)
               (or_else (ApiBody.message data)
                        (lit "API error: " ++ ofNumber (status r)))).
Proof.
  intros Hc Ht Hok. eexists. split.
  - apply getBotActivities_not_ok; assumption.
  - unfold DirectLine.errorMessageFor.
    split; [|split; [|split]].
    + intros H. rewrite H. split; reflexivity.
    + intros H. rewrite H. split; reflexivity.
    + intros H. rewrite H. split; reflexivity.
    + intros H1 H3 H4.
      apply Z.eqb_neq in H1, H3, H4. rewrite H1, H3, H4. reflexivity.
Qed.

Lemma getBotActivities_error_by_status_witness :
  exists msg,
    DirectLine.getBotActivities (lit "conv-1") (lit "token-1")
      (Responded (Examples.failed 401)) = Throw (Error msg)
    /\ includes (lit "Unauthorized") msg = true.
Proof.
  destruct (getBotActivities_error_by_status (lit "conv-1") (lit "token-1")
              (Examples.failed 401) eq_refl eq_refl eq_refl)
    as [msg [H [H401 _]]].
  exists msg. split; [exact H | apply H401; reflexivity].
Defined.

(** C5, as stated, fails on the letter case: the messages thrown for
    401, 403 and 404 do not contain "unauthorized", "forbidden" and
    "conversation not found". *)
Lemma getBotActivities_messages_are_capitalised :
  (exists msg,
     DirectLine.getBotActivities (lit "conv-1") (lit "token-1")
       (Responded (Examples.failed 401)) = Throw (Error msg)
     /\ includes (lit "unauthorized") msg = false)
  /\ (exists msg,
       DirectLine.getBotActivities (lit "conv-1") (lit "token-1")
         (Responded (Examples.failed 403)) = Throw (Error msg)
       /\ includes (lit "forbidden") msg = false)
  /\ (exists msg,
       DirectLine.getBotActivities (lit "conv-1") (lit "token-1")
         (Responded (Examples.failed 404)) = Throw (Error msg)
       /\ includes (lit "conversation not found") msg = false).
Proof.
  repeat split; eexists; (split; [reflexivity | vm_compute; reflexivity]).
Qed.

(** ** The sort *)

Section SortFacts.
Context {A : Type} (comparefn : A -> A -> option Z).

Lemma In_insert (a x : A) (l : list A) :
  In a (DirectLine.insert comparefn x l) <-> a = x \/ In a l.
Proof.
  induction l as [|y r IH]; simpl.
  - intuition congruence.
  - destruct (DirectLine.sortsAfter comparefn x y); simpl.
    + rewrite IH. intuition congruence.
    + intuition congruence.
Qed.

Lemma In_sort (a : A) (l : list A) :
  In a (DirectLine.sort comparefn l) <-> In a l.
Proof.
  induction l as [|x r IH]; simpl.
  - reflexivity.
  - rewrite In_insert, IH. intuition congruence.
Qed.

Lemma sort_nil_iff (l : list A) : DirectLine.sort comparefn l = [] <-> l = [].
Proof.
  destruct l as [|x r]; simpl; [tauto|].
  split; [|discriminate].
  destruct (DirectLine.sort comparefn r) as [|y s]; simpl; [discriminate|].
  destruct (DirectLine.sortsAfter comparefn x y); discriminate.
Qed.

Lemma consistentOn_tail (x : A) (l : list A) :
  consistentOn comparefn (x :: l) -> consistentOn comparefn l.
Proof.
  intros [Hasym Htrans]. split.
  - intros a b Ha Hb. apply Hasym; now right.
  - intros a b c Ha Hb Hc. apply Htrans; now right.
Qed.

(** The head of the sorted list is the first element, in the order of
    [l], among those that no element sorts before. *)
Lemma sort_head (l : list A) :
  consistentOn comparefn l -> l <> [] ->
  exists pre a post rest,
    l = pre ++ a :: post
    /\ DirectLine.sort comparefn l = a :: rest
    /\ (forall b, In b pre -> DirectLine.sortsAfter comparefn b a = true)
    /\ (forall b, In b post -> DirectLine.sortsAfter comparefn a b = false).
Proof.
  induction l as [|x r IH]; intros Hcons Hne; [congruence|].
  destruct r as [|y r'].
  - exists [], x, [], []. simpl. repeat split; intros b [].
  - destruct (IH (consistentOn_tail _ _ Hcons) ltac:(discriminate))
      as (pre & a & post & rest & Hl & Hs & Hpre & Hpost).
    assert (Ha : In a (y :: r')) by (rewrite Hl; apply in_elt).
    change (DirectLine.sort comparefn (x :: y :: r'))
      with (DirectLine.insert comparefn x (DirectLine.sort comparefn (y :: r'))).
    rewrite Hs, Hl. simpl.
    destruct (DirectLine.sortsAfter comparefn x a) eqn:Hxa.
    + exists (x :: pre), a, post, (DirectLine.insert comparefn x rest).
      repeat split; trivial.
      intros b [<-|Hb]; auto.
    + exists [], x, (pre ++ a :: post), (a :: rest).
      repeat split; trivial; [intros b []|].
      intros b Hb. destruct Hcons as [Hasym Htrans].
      assert (Hb' : In b (y :: r')) by (rewrite Hl; exact Hb).
      apply (Htrans x a b); [now left | now right | now right | exact Hxa |].
      apply in_app_or in Hb. destruct Hb as [Hb|[<-|Hb]].
      * apply Hasym; [now right | now right | auto].
      * destruct (DirectLine.sortsAfter comparefn a a) eqn:Haa; trivial.
        rewrite (Hasym a a) in Haa; [discriminate | now right | now right | exact Haa].
      * auto.
Qed.

End SortFacts.

(** ** getLatestBotMessage *)

Lemma logBotActivities_returns (l : list Activity.t) :
  (forall a, In a l -> Activity.text a <> None) ->
  DirectLine.logBotActivities l = Return tt.
Proof.
  induction l as [|a r IH]; intros H; simpl; trivial.
  destruct (Activity.text a) eqn:Ht.
  - apply IH. intros b Hb. apply H. now right.
  - exfalso. apply (H a); [now left | exact Ht].
Qed.

Lemma logBotActivities_throws (l : list Activity.t) (a : Activity.t) :
  In a l -> Activity.text a = None ->
  DirectLine.logBotActivities l = Throw (cannotRead "substring").
Proof.
  induction l as [|b r IH]; intros Hin Ht; simpl; [destruct Hin|].
  destruct Hin as [->|Hin].
  - rewrite Ht. reflexivity.
  - destruct (Activity.text b); [apply IH; assumption | reflexivity].
Qed.

Section Selection.
Context {host : Host}.

Lemma getLatestBotMessage_head data log :
  ApiBody.activities data = Some log ->
  (forall a, In a (filter DirectLine.retained log) -> Activity.text a <> None) ->
  DirectLine.getLatestBotMessage (Some data) =
  Return (match DirectLine.botActivitiesOf log with
          | latest :: _ => Some (DirectLine.toBotMessage latest)
          | [] => None
          end).
Proof.
  intros Hlog Htext. unfold DirectLine.getLatestBotMessage. rewrite Hlog.
  cbv zeta.
  assert (Hlogged : DirectLine.logBotActivities (DirectLine.botActivitiesOf log) = Return tt).
  { apply logBotActivities_returns. intros a Ha. apply Htext.
    unfold DirectLine.botActivitiesOf in Ha. now apply In_sort in Ha. }
  destruct (0 <? Z.of_nat (List.length (DirectLine.botActivitiesOf log)));
    [rewrite Hlogged|]; simpl;
    destruct (DirectLine.botActivitiesOf log); reflexivity.
Qed.

Lemma compareActivities_timed a b ta tb :
  timeOf a = Some ta -> timeOf b = Some tb ->
  DirectLine.compareActivities a b = Some (tb - ta).
Proof.
  unfold timeOf, DirectLine.compareActivities. intros Ha Hb.
  destruct (Activity.timestamp a) as [sa|]; [|discriminate].
  destruct (Activity.timestamp b) as [sb|]; [|discriminate].
  simpl.
  destruct (truthy sa); [|discriminate].
  destruct (truthy sb); [|discriminate].
  simpl. rewrite Ha, Hb. reflexivity.
Qed.

Lemma sortsAfter_timed a b ta tb :
  timeOf a = Some ta -> timeOf b = Some tb ->
  DirectLine.sortsAfter DirectLine.compareActivities a b = (0 <? tb - ta).
Proof.
  intros Ha Hb. unfold DirectLine.sortsAfter.
  now rewrite (compareActivities_timed a b ta tb Ha Hb).
Qed.

(** With a date on every activity the comparator is consistent. *)
Lemma timed_consistent (l : list Activity.t) :
  (forall a, In a l -> timeOf a <> None) ->
  consistentOn DirectLine.compareActivities l.
Proof.
  intros Hall.
  assert (Ht : forall a, In a l -> exists t, timeOf a = Some t).
  { intros a Ha. specialize (Hall a Ha). destruct (timeOf a) as [t|]; [eauto|congruence]. }
  split.
  - intros x y Hx Hy.
    destruct (Ht x Hx) as [tx Ex], (Ht y Hy) as [ty Ey].
    rewrite (sortsAfter_timed x y tx ty Ex Ey), (sortsAfter_timed y x ty tx Ey Ex).
    rewrite Z.ltb_lt, Z.ltb_ge. lia.
  - intros x y z Hx Hy Hz.
    destruct (Ht x Hx) as [tx Ex], (Ht y Hy) as [ty Ey], (Ht z Hz) as [tz Ez].
    rewrite (sortsAfter_timed x y tx ty Ex Ey), (sortsAfter_timed y z ty tz Ey Ez),
            (sortsAfter_timed x z tx tz Ex Ez).
    rewrite !Z.ltb_ge. lia.
Qed.

End Selection.

Section SelectionClaims.
Context {host : Host}.

Lemma isMessage_spec a :
  DirectLine.isMessage a = true <-> Activity.type a = Some (lit "message").
Proof.
  unfold DirectLine.isMessage. destruct (Activity.type a) as [t|].
  - rewrite eqb_eq. split; congruence.
  - split; discriminate.
Qed.

Lemma hasText_spec a :
  DirectLine.hasText a = true <-> exists t, Activity.text a = Some t /\ trim t <> [].
Proof.
  unfold DirectLine.hasText. destruct (Activity.text a) as [t|].
  - split.
    + intros H. apply andb_prop in H. destruct H as [_ H]. apply Z.ltb_lt in H.
      exists t. split; trivial. intros E. rewrite E in H. discriminate.
    + intros (t' & [= <-] & Hne).
      assert (Ht : truthy t = true).
      { destruct t; [|reflexivity]. exfalso. apply Hne. reflexivity. }
      rewrite Ht. simpl. unfold length.
      destruct (trim t); [congruence|]. reflexivity.
  - split; [discriminate | intros (t & H & _); discriminate].
Qed.

Lemma hasAttachments_spec a :
  DirectLine.hasAttachments a = true <->
  exists l, Activity.attachments a = Some l /\ l <> [].
Proof.
  unfold DirectLine.hasAttachments. destruct (Activity.attachments a) as [l|].
  - split.
    + intros H. exists l. split; trivial. intros E. rewrite E in H. discriminate.
    + intros (l' & [= <-] & Hne). destruct l; [congruence | reflexivity].
  - split; [discriminate | intros (l & H & _); discriminate].
Qed.

Lemma isBot_spec a :
  DirectLine.isBot a = true <->
  exists from,
    Activity.from a = Some from
    /\ (Sender.role from = Some (lit "bot")
        \/ Sender.id from = Some (lit "comm-cba1-conci-retailai7v5b1-bot")
        \/ (exists i, Sender.id from = Some i /\ includes (lit "bot") i = true)
        \/ Sender.name from = Some (lit "Concierge")).
Proof.
  unfold DirectLine.isBot. destruct (Activity.from a) as [from|]; cbv zeta.
  - rewrite !orb_true_iff. split.
    + intros [[[H|H]|H]|H]; exists from; split; trivial.
      * left. destruct (Sender.role from); [|discriminate].
        apply eqb_eq in H. congruence.
      * right; left. destruct (Sender.id from); [|discriminate].
        apply eqb_eq in H. rewrite H. reflexivity.
      * right; right; left. destruct (Sender.id from) as [i|]; [|discriminate].
        apply andb_prop in H. destruct H as [_ H]. exists i. auto.
      * right; right; right. destruct (Sender.name from); [|discriminate].
        apply eqb_eq in H. congruence.
    + intros (from' & [= <-] & [H|[H|[(i & H & Hi)|H]]]).
      * left; left; left. rewrite H. apply eqb_refl.
      * left; left; right. rewrite H. apply eqb_refl.
      * left; right. rewrite H, Hi. destruct i; [discriminate | reflexivity].
      * right. rewrite H. apply eqb_refl.
  - simpl. split; [discriminate | intros (from & H & _); discriminate].
Qed.

Lemma retained_spec a :
  DirectLine.retained a = true <->
  Activity.type a = Some (lit "message")
  /\ ((exists t, Activity.text a = Some t /\ trim t <> [])
      \/ (exists l, Activity.attachments a = Some l /\ l <> []))
  /\ exists from,
       Activity.from a = Some from
       /\ (Sender.role from = Some (lit "bot")
           \/ Sender.id from = Some (lit "comm-cba1-conci-retailai7v5b1-bot")
           \/ (exists i, Sender.id from = Some i /\ includes (lit "bot") i = true)
           \/ Sender.name from = Some (lit "Concierge")).
Proof.
  rewrite <- isMessage_spec, <- hasText_spec, <- hasAttachments_spec, <- isBot_spec.
  unfold DirectLine.retained.
  destruct (DirectLine.isMessage a), (DirectLine.hasText a),
           (DirectLine.hasAttachments a), (DirectLine.isBot a); simpl;
    intuition discriminate.
Qed.

Lemma compareActivities_by_id a b ida idb :
  truthy_opt (Activity.timestamp a) && truthy_opt (Activity.timestamp b) = false ->
  Activity.id a = Some ida -> Activity.id b = Some idb -> ida <> [] -> idb <> [] ->
  DirectLine.compareActivities a b = Some (localeCompare idb ida).
Proof.
  intros Hts Ha Hb Hna Hnb. unfold DirectLine.compareActivities.
  rewrite Hts, Ha, Hb.
  destruct ida; [congruence|]. destruct idb; [congruence|]. reflexivity.
Qed.

(** Without timestamps, and with an id on every activity, the comparator
    is as consistent as [localeCompare] is. *)
Lemma untimed_consistent (l : list Activity.t) :
  (forall x y, 0 < localeCompare x y -> localeCompare y x <= 0) ->
  (forall x y z, localeCompare x y <= 0 -> localeCompare y z <= 0 ->
                 localeCompare x z <= 0) ->
  (forall a, In a l -> truthy_opt (Activity.timestamp a) = false
                       /\ truthy_opt (Activity.id a) = true) ->
  consistentOn DirectLine.compareActivities l.
Proof.
  intros Hasym Htrans Hall.
  assert (Hcmp : forall a b, In a l -> In b l ->
            exists ida idb, Activity.id a = Some ida /\ Activity.id b = Some idb
              /\ DirectLine.sortsAfter DirectLine.compareActivities a b
                 = (0 <? localeCompare idb ida)).
  { intros a b Ha Hb. destruct (Hall a Ha) as [Hta Hia], (Hall b Hb) as [Htb Hib].
    destruct (Activity.id a) as [ida|] eqn:Ea; [|discriminate].
    destruct (Activity.id b) as [idb|] eqn:Eb; [|discriminate].
    exists ida, idb. repeat split. unfold DirectLine.sortsAfter.
    rewrite (compareActivities_by_id a b ida idb); trivial.
    - now rewrite Hta.
    - intros E. rewrite E in Hia. discriminate.
    - intros E. rewrite E in Hib. discriminate. }
  split.
  - intros x y Hx Hy.
    destruct (Hcmp x y Hx Hy) as (ix & iy & Ex & Ey & ->).
    destruct (Hcmp y x Hy Hx) as (iy' & ix' & Ey' & Ex' & ->).
    assert (iy' = iy) by congruence. assert (ix' = ix) by congruence. subst.
    rewrite Z.ltb_lt, Z.ltb_ge. apply Hasym.
  - intros x y z Hx Hy Hz.
    destruct (Hcmp x y Hx Hy) as (ix & iy & Ex & Ey & ->).
    destruct (Hcmp y z Hy Hz) as (iy' & iz & Ey' & Ez & ->).
    destruct (Hcmp x z Hx Hz) as (ix' & iz' & Ex' & Ez' & ->).
    assert (iy' = iy) by congruence. assert (ix' = ix) by congruence.
    assert (iz' = iz) by congruence. subst.
    rewrite !Z.ltb_ge. intros H1 H2. now apply (Htrans iz iy ix).
Qed.

(** C1, as amended.  The retained activities are the messages with a
    non-blank text or an attachment whose sender the bot classifier
    accepts.  On a log whose retained activities all have a text,
    [getLatestBotMessage] returns null when nothing is retained.  When
    the comparator (descending parsed time when both sides have a
    timestamp, equal timestamps comparing as equal; descending id when a
    side lacks a timestamp and both have an id; equal otherwise) is
    consistent on the retained activities, it returns the message of the
    first activity, in the order of the log, among those that no retained
    activity sorts before.  So when every retained activity has a
    timestamp that is a date it returns the first of the log among those
    of the latest time, whatever the ids; and when none has a timestamp
    and all have an id it returns the first of the log among those of
    the greatest id.  Nothing is said of a log on which the comparator is
    not consistent. *)
Theorem getLatestBotMessage_selects data log :
  ApiBody.activities data = Some log ->
  (forall a, In a (filter DirectLine.retained log) -> Activity.text a <> None) ->
  let kept := filter DirectLine.retained log in
  (forall a, In a kept <->
     In a log
     /\ Activity.type a = Some (lit "message")
     /\ ((exists t, Activity.text a = Some t /\ trim t <> [])
         \/ (exists l, Activity.attachments a = Some l /\ l <> []))
     /\ exists from,
          Activity.from a = Some from
          /\ (Sender.role from = Some (lit "bot")
              \/ Sender.id from = Some (lit "comm-cba1-conci-retailai7v5b1-bot")
              \/ (exists i, Sender.id from = Some i /\ includes (lit "bot") i = true)
              \/ Sender.name from = Some (lit "Concierge")))
  /\ (kept = [] -> DirectLine.getLatestBotMessage (Some data) = Return None)
  /\ (kept <> [] -> consistentOn DirectLine.compareActivities kept ->
      exists pre a post,
        kept = pre ++ a :: post
        /\ DirectLine.getLatestBotMessage (Some data)
           = Return (Some (DirectLine.toBotMessage a))
        /\ (forall b, In b pre ->
              DirectLine.sortsAfter DirectLine.compareActivities b a = true)
        /\ (forall b, In b post ->
              DirectLine.sortsAfter DirectLine.compareActivities a b = false))
  /\ (kept <> [] -> (forall a, In a kept -> timeOf a <> None) ->
      exists pre a post ta,
        kept = pre ++ a :: post
        /\ DirectLine.getLatestBotMessage (Some data)
           = Return (Some (DirectLine.toBotMessage a))
        /\ timeOf a = Some ta
        /\ (forall b tb, In b pre -> timeOf b = Some tb -> tb < ta)
        /\ (forall b tb, In b post -> timeOf b = Some tb -> tb <= ta))
  /\ (kept <> [] ->
      (forall a, In a kept -> truthy_opt (Activity.timestamp a) = false
                              /\ truthy_opt (Activity.id a) = true) ->
      (forall x y, 0 < localeCompare x y -> localeCompare y x <= 0) ->
      (forall x y z, localeCompare x y <= 0 -> localeCompare y z <= 0 ->
                     localeCompare x z <= 0) ->
      exists pre a post ida,
        kept = pre ++ a :: post
        /\ DirectLine.getLatestBotMessage (Some data)
           = Return (Some (DirectLine.toBotMessage a))
        /\ Activity.id a = Some ida
        /\ (forall b idb, In b pre -> Activity.id b = Some idb ->
              0 < localeCompare ida idb)
        /\ (forall b idb, In b post -> Activity.id b = Some idb ->
              localeCompare idb ida <= 0))
  /\ (forall a b ida idb,
        truthy_opt (Activity.timestamp a) = false
        \/ truthy_opt (Activity.timestamp b) = false ->
        Activity.id a = Some ida -> Activity.id b = Some idb ->
        ida <> [] -> idb <> [] ->
        DirectLine.compareActivities a b = Some (localeCompare idb ida)).
Proof.
  intros Hlog Htext kept.
  pose proof (getLatestBotMessage_head data log Hlog Htext) as Hhead.
  unfold DirectLine.botActivitiesOf in Hhead. fold kept in Hhead.
  assert (Hcons : kept <> [] -> consistentOn DirectLine.compareActivities kept ->
      exists pre a post,
        kept = pre ++ a :: post
        /\ DirectLine.getLatestBotMessage (Some data)
           = Return (Some (DirectLine.toBotMessage a))
        /\ (forall b, In b pre ->
              DirectLine.sortsAfter DirectLine.compareActivities b a = true)
        /\ (forall b, In b post ->
              DirectLine.sortsAfter DirectLine.compareActivities a b = false)).
  { intros Hne Hc.
    destruct (sort_head DirectLine.compareActivities kept Hc Hne)
      as (pre & a & post & rest & Hk & Hs & Hpre & Hpost).
    exists pre, a, post. rewrite Hs in Hhead. auto. }
  split; [|split; [|split; [|split; [|split]]]].
  - intros a. unfold kept. rewrite filter_In, retained_spec. tauto.
  - intros Hnil. rewrite Hnil in Hhead. exact Hhead.
  - exact Hcons.
  - intros Hne Htimed.
    destruct (Hcons Hne (timed_consistent kept Htimed))
      as (pre & a & post & Hk & Hres & Hpre & Hpost).
    assert (Ha : In a kept) by (rewrite Hk; apply in_elt).
    destruct (timeOf a) as [ta|] eqn:Eta; [|now apply Htimed in Ha].
    exists pre, a, post, ta. repeat split; trivial.
    + intros b tb Hb Etb. specialize (Hpre b Hb).
      rewrite (sortsAfter_timed b a tb ta Etb Eta) in Hpre.
      apply Z.ltb_lt in Hpre. lia.
    + intros b tb Hb Etb. specialize (Hpost b Hb).
      rewrite (sortsAfter_timed a b ta tb Eta Etb) in Hpost.
      apply Z.ltb_ge in Hpost. lia.
  - intros Hne Hids Hasym Htrans.
    destruct (Hcons Hne (untimed_consistent kept Hasym Htrans Hids))
      as (pre & a & post & Hk & Hres & Hpre & Hpost).
    assert (Hin : forall b, In b pre \/ In b post -> In b kept).
    { intros b Hb. rewrite Hk. apply in_or_app.
      destruct Hb; [now left | right; now right]. }
    assert (Ha : In a kept) by (rewrite Hk; apply in_elt).
    destruct (Hids a Ha) as [Hta Hia].
    destruct (Activity.id a) as [ida|] eqn:Ea; [|discriminate].
    assert (Hna : ida <> []) by (intros E; rewrite E in Hia; discriminate).
    exists pre, a, post, ida. repeat split; trivial.
    + intros b idb Hb Eb. specialize (Hpre b Hb).
      destruct (Hids b (Hin b (or_introl Hb))) as [Htb Hib].
      rewrite Eb in Hib.
      assert (Hnb : idb <> []) by (intros E; rewrite E in Hib; discriminate).
      unfold DirectLine.sortsAfter in Hpre.
      rewrite (compareActivities_by_id b a idb ida) in Hpre; trivial;
        [now apply Z.ltb_lt in Hpre | now rewrite Htb].
    + intros b idb Hb Eb. specialize (Hpost b Hb).
      destruct (Hids b (Hin b (or_intror Hb))) as [Htb Hib].
      rewrite Eb in Hib.
      assert (Hnb : idb <> []) by (intros E; rewrite E in Hib; discriminate).
      unfold DirectLine.sortsAfter in Hpost.
      rewrite (compareActivities_by_id a b ida idb) in Hpost; trivial;
        [now apply Z.ltb_ge in Hpost | now rewrite Hta].
  - intros a b ida idb Hts Ea Eb Hna Hnb.
    apply compareActivities_by_id; trivial.
    destruct Hts as [-> | ->]; [reflexivity | apply andb_false_r].
Qed.

(** C9.  A retained activity without a text anywhere in the log (a card
    with attachments only) makes [getLatestBotMessage] throw the TypeError
    of [activity.text.substring], whichever activity is the latest. *)
Theorem getLatestBotMessage_throws_on_card data log a :
  ApiBody.activities data = Some log ->
  In a log -> DirectLine.retained a = true -> Activity.text a = None ->
  DirectLine.getLatestBotMessage (Some data) = Throw (cannotRead "substring").
Proof.
  intros Hlog Hin Hret Htext.
  unfold DirectLine.getLatestBotMessage. rewrite Hlog. cbv zeta.
  assert (Ha : In a (DirectLine.botActivitiesOf log)).
  { unfold DirectLine.botActivitiesOf. apply In_sort, filter_In. now split. }
  rewrite (logBotActivities_throws _ a Ha Htext).
  destruct (DirectLine.botActivitiesOf log) as [|b r]; [destruct Ha|].
  reflexivity.
Qed.

End SelectionClaims.

Lemma compareUnits_opp a b : RefHost.compareUnits b a = - RefHost.compareUnits a b.
Proof.
  revert b. induction a as [|x a IH]; intros [|y b]; simpl; trivial.
  destruct (x <? y) eqn:Exy, (y <? x) eqn:Eyx; trivial.
  apply Z.ltb_lt in Exy, Eyx. lia.
Qed.

Lemma compareUnits_range a b : -1 <= RefHost.compareUnits a b <= 1.
Proof.
  revert b. induction a as [|x a IH]; intros [|y b]; simpl; try lia.
  destruct (x <? y); [lia|]. destruct (y <? x); [lia|]. apply IH.
Qed.

Lemma compareUnits_trans x y z :
  RefHost.compareUnits x y <= 0 -> RefHost.compareUnits y z <= 0 ->
  RefHost.compareUnits x z <= 0.
Proof.
  revert y z. induction x as [|a x IH]; intros [|b y] [|c z]; simpl; try lia.
  destruct (a <? b) eqn:Eab.
  - apply Z.ltb_lt in Eab. intros _.
    destruct (b <? c) eqn:Ebc.
    + apply Z.ltb_lt in Ebc. intros _.
      assert (E : (a <? c) = true) by (apply Z.ltb_lt; lia). now rewrite E.
    + destruct (c <? b) eqn:Ecb; [lia|].
      apply Z.ltb_ge in Ebc, Ecb. intros _.
      assert (E : (a <? c) = true) by (apply Z.ltb_lt; lia). now rewrite E.
  - destruct (b <? a) eqn:Eba; [lia|].
    apply Z.ltb_ge in Eab, Eba. assert (a = b) by lia. subst b.
    destruct (a <? c); [lia|]. destruct (c <? a); [lia|]. apply IH.
Qed.

Lemma getLatestBotMessage_selects_witness :
  let host := RefHost.host in
  (exists pre a post ta,
     filter DirectLine.retained Examples.orderedLog = pre ++ a :: post
     /\ DirectLine.getLatestBotMessage (Some (Examples.body Examples.orderedLog))
        = Return (Some (DirectLine.toBotMessage a))
     /\ timeOf a = Some ta
     /\ (forall b tb, In b pre -> timeOf b = Some tb -> tb < ta)
     /\ (forall b tb, In b post -> timeOf b = Some tb -> tb <= ta))
  /\ (exists pre a post ida,
       filter DirectLine.retained Examples.idLog = pre ++ a :: post
       /\ DirectLine.getLatestBotMessage (Some (Examples.body Examples.idLog))
          = Return (Some (DirectLine.toBotMessage a))
       /\ Activity.id a = Some ida
       /\ (forall b idb, In b pre -> Activity.id b = Some idb ->
             0 < localeCompare ida idb)
       /\ (forall b idb, In b post -> Activity.id b = Some idb ->
             localeCompare idb ida <= 0)).
Proof.
  intros host.
  assert (Hasym : forall x y, 0 < localeCompare x y -> localeCompare y x <= 0).
  { intros x y H. simpl in *. rewrite (compareUnits_opp x y). lia. }
  split.
  - assert (Hall : forall a, In a (filter DirectLine.retained Examples.orderedLog) ->
              Activity.text a <> None /\ timeOf a <> None).
    { intros a Ha. vm_compute in Ha.
      destruct Ha as [<-|[<-|[<-|[]]]]; split; vm_compute; discriminate. }
    apply (getLatestBotMessage_selects (host := host)
             (Examples.body Examples.orderedLog) Examples.orderedLog eq_refl).
    + intros a Ha. now apply Hall.
    + discriminate.
    + intros a Ha. now apply Hall.
  - assert (Hall : forall a, In a (filter DirectLine.retained Examples.idLog) ->
              Activity.text a <> None
              /\ truthy_opt (Activity.timestamp a) = false
              /\ truthy_opt (Activity.id a) = true).
    { intros a Ha. vm_compute in Ha.
      destruct Ha as [<-|[<-|[<-|[]]]]; repeat split; vm_compute; discriminate. }
    apply (getLatestBotMessage_selects (host := host)
             (Examples.body Examples.idLog) Examples.idLog eq_refl).
    + intros a Ha. now apply Hall.
    + discriminate.
    + intros a Ha. now apply Hall.
    + exact Hasym.
    + exact compareUnits_trans.
Defined.

(** The selection on the three kinds of log: by time, by id when no
    activity has a timestamp, and by id when one side lacks it. *)
Example orderedLog_latest :
  DirectLine.getLatestBotMessage (host := RefHost.host)
    (Some (Examples.body Examples.orderedLog))
  = Return (Some (DirectLine.toBotMessage
                    (Examples.say "A3" "Anything else?" "2024-03-01T12:00:09Z"))).
Proof. vm_compute. reflexivity. Qed.

Example idLog_latest :
  DirectLine.getLatestBotMessage (host := RefHost.host)
    (Some (Examples.body Examples.idLog))
  = Return (Some (DirectLine.toBotMessage (Examples.note "A3" "Anything else?"))).
Proof. vm_compute. reflexivity. Qed.

Example mixedPair_latest :
  DirectLine.getLatestBotMessage (host := RefHost.host)
    (Some (Examples.body Examples.mixedPair))
  = Return (Some (DirectLine.toBotMessage (Examples.note "A5" "Anything else?"))).
Proof. vm_compute. reflexivity. Qed.

(** C1, as stated, fails on a tie: of two bot messages with the same
    timestamp the code returns the first of the log, A1, where the
    descending comparison of ids would put A2 first. *)
Lemma getLatestBotMessage_tie_ignores_id :
  DirectLine.getLatestBotMessage (host := RefHost.host)
    (Some (Examples.body Examples.tieLog))
  = Return (Some (DirectLine.toBotMessage
                    (Examples.say "A1" "Welcome" "2024-03-01T12:00:00Z")))
  /\ Claimed.latestBotMessage (host := RefHost.host) Examples.tieLog
     = Some (DirectLine.toBotMessage
               (Examples.say "A2" "How can I help?" "2024-03-01T12:00:00Z"))
  /\ DirectLine.getLatestBotMessage (host := RefHost.host)
       (Some (Examples.body Examples.tieLog))
     <> Return (Claimed.latestBotMessage (host := RefHost.host) Examples.tieLog).
Proof.
  split; [|split].
  - vm_compute. reflexivity.
  - vm_compute. reflexivity.
  - vm_compute. discriminate.
Qed.

Lemma getLatestBotMessage_throws_on_card_witness :
  DirectLine.getLatestBotMessage (host := RefHost.host)
    (Some (Examples.body Examples.cardLog))
  = Throw (cannotRead "substring").
Proof.
  apply (getLatestBotMessage_throws_on_card (host := RefHost.host)
           (Examples.body Examples.cardLog) Examples.cardLog
           (Examples.card "A2" "2024-03-01T12:00:05Z") eq_refl).
  - right. left. reflexivity.
  - reflexivity.
  - reflexivity.
Defined.

(** ** The polling hook *)

Section PollingClaims.
Context {host : Host}.
Import Polling.

Lemma deliver_not_new props m w :
  isNewMessage (or_else (BotMessage.id m) (BotMessage.text m)) (BotMessage.text m) (hook w) = false ->
  deliver props m w = w.
Proof. intros H. unfold deliver. cbv zeta. now rewrite H. Qed.

Lemma deliver_settles props m w :
  isNewMessage (or_else (BotMessage.id m) (BotMessage.text m)) (BotMessage.text m)
               (hook (deliver props m w)) = false.
Proof.
  unfold deliver. cbv zeta.
  destruct (isNewMessage _ _ (hook w)) eqn:Hnew; [|exact Hnew].
  destruct (onBotMessage props); unfold isNewMessage; simpl;
    now rewrite !eqb_refl.
Qed.

Lemma deliver_twice props m w :
  deliver props m (deliver props m w) = deliver props m w.
Proof. apply deliver_not_new, deliver_settles. Qed.

Lemma pollResume_twice props net w :
  calls (pollResume props net (pollResume props net w)) = calls (pollResume props net w).
Proof.
  unfold pollResume.
  destruct (bind _ _) as [[m|]|e]; trivial.
  now rewrite deliver_twice.
Qed.

(** C2.  In the delivery step the selected message is new iff its key
    (its id, or its trimmed text when the id is undefined or empty)
    differs from [lastActivityIdRef] or its text differs from
    [lastMessageRef].  A message that is not new changes nothing and
    invokes nothing; a new one writes both refs and then invokes the
    callback once, which sees both refs already updated; and the same
    message delivered again, or the same response polled again, adds no
    invocation. *)
Theorem deliver_new_iff_and_once props m w net :
  let text := BotMessage.text m in
  let key := match BotMessage.id m with
             | Some (c :: r) => c :: r
             | _ => text
             end in
  let w' := deliver props m w in
  (isNewMessage key text (hook w) = true <->
     key <> lastActivityIdRef (hook w) \/ text <> lastMessageRef (hook w))
  /\ (isNewMessage key text (hook w) = false -> w' = w)
  /\ (isNewMessage key text (hook w) = true ->
        lastMessageRef (hook w') = text
        /\ lastActivityIdRef (hook w') = key
        /\ calls w' = calls w ++
             (if onBotMessage props then [mkCall text text key] else []))
  /\ calls (deliver props m w') = calls w'
  /\ calls (pollResume props net (pollResume props net w))
     = calls (pollResume props net w).
Proof.
  intros text key w'.
  assert (Hkey : key = or_else (BotMessage.id m) text).
  { unfold key, or_else. destruct (BotMessage.id m) as [[|c r]|]; reflexivity. }
  clearbody key. subst key text w'.
  split; [|split; [|split; [|split]]].
  - unfold isNewMessage. rewrite orb_true_iff, !negb_eqb_true. tauto.
  - apply deliver_not_new.
  - intros Hnew. unfold deliver. cbv zeta. rewrite Hnew.
    destruct (onBotMessage props); simpl; repeat split; trivial.
    now rewrite app_nil_r.
  - now rewrite deliver_twice.
  - apply pollResume_twice.
Qed.

(** Frame of the poll body: it never touches the interval, the handle
    counter or the activity flags. *)
Lemma deliver_frame props m w :
  let w' := deliver props m w in
  intervals w' = intervals w /\ inflight w' = inflight w
  /\ pollingIntervalRef (hook w') = pollingIntervalRef (hook w)
  /\ isActiveRef (hook w') = isActiveRef (hook w)
  /\ exists extra, calls w' = calls w ++ extra /\ (List.length extra <= 1)%nat.
Proof.
  unfold deliver. cbv zeta.
  destruct (isNewMessage _ _ _); [destruct (onBotMessage props)|]; simpl;
    repeat split; trivial.
  - eexists. split; [reflexivity | simpl; lia].
  - exists []. split; [now rewrite app_nil_r | simpl; lia].
  - exists []. split; [now rewrite app_nil_r | simpl; lia].
Qed.

Lemma pollResume_frame props net w :
  let w' := pollResume props net w in
  intervals w' = intervals w /\ inflight w' = inflight w
  /\ pollingIntervalRef (hook w') = pollingIntervalRef (hook w)
  /\ isActiveRef (hook w') = isActiveRef (hook w)
  /\ exists extra, calls w' = calls w ++ extra /\ (List.length extra <= 1)%nat.
Proof.
  unfold pollResume.
  destruct (bind _ _) as [[m|]|e].
  - apply deliver_frame.
  - simpl. repeat split; trivial. exists []. split; [now rewrite app_nil_r | simpl; lia].
  - simpl. repeat split; trivial. exists []. split; [now rewrite app_nil_r | simpl; lia].
Qed.

Lemma pollBegin_frame props w :
  let w' := pollBegin props w in
  intervals w' = intervals w /\ calls w' = calls w
  /\ nextHandle w' = nextHandle w
  /\ pollingIntervalRef (hook w') = pollingIntervalRef (hook w)
  /\ isActiveRef (hook w') = isActiveRef (hook w).
Proof.
  unfold pollBegin.
  destruct (negb (truthy (conversationId props)) || negb (truthy (bearerToken props)));
    simpl; repeat split; trivial.
Qed.

(** C6.  When the fetch of a poll fails (the request is rejected or the
    response is not ok, so that [getBotActivities] throws), the poll
    records the message of the failure as [error] and changes nothing
    else: both dedup refs, the flags, the interval handle and the
    scheduled intervals are as before and the callback is not invoked; a
    later firing of a scheduled interval issues a new fetch. *)
Theorem failed_poll_keeps_polling props net e w n :
  truthy (conversationId props) = true -> truthy (bearerToken props) = true ->
  inflight w = S n ->
  DirectLine.getBotActivities (conversationId props) (bearerToken props) net = Throw e ->
  let w' := step props (FetchSettles net) w in
  error (hook w') = Some (message e)
  /\ lastMessageRef (hook w') = lastMessageRef (hook w)
  /\ lastActivityIdRef (hook w') = lastActivityIdRef (hook w)
  /\ isPolling (hook w') = isPolling (hook w)
  /\ isActiveRef (hook w') = isActiveRef (hook w)
  /\ pollingIntervalRef (hook w') = pollingIntervalRef (hook w)
  /\ intervals w' = intervals w
  /\ calls w' = calls w
  /\ inflight w' = n
  /\ (forall handle, scheduled handle (intervals w') = true ->
        inflight (step props (IntervalFires handle) w') = S (inflight w')).
Proof.
  intros Hc Ht Hin Hthrow w'.
  assert (Hw' : w' = mkWorld (setError (Some (message e)) (hook w))
                             (intervals w) (nextHandle w) n (calls w)).
  { unfold w', step. rewrite Hin. unfold pollResume. rewrite Hthrow. reflexivity. }
  rewrite Hw'. simpl. repeat split; trivial.
  intros handle Hs. rewrite Hs. unfold pollBegin. rewrite Hc, Ht. reflexivity.
Qed.

End PollingClaims.

Lemma failed_poll_keeps_polling_witness :
  let host := RefHost.host in
  let w := Polling.run Examples.props [Polling.StartPolling] Polling.initialWorld in
  let w' := Polling.step Examples.props
              (Polling.FetchSettles (Responded (Examples.failed 401))) w in
  Polling.error (Polling.hook w')
  = Some (lit "Unauthorized: Invalid Bearer Token. Please check your token.")
  /\ Polling.intervals w' = [(1%positive, 2000)]
  /\ Polling.inflight (Polling.step Examples.props (Polling.IntervalFires 1) w') = 1%nat.
Proof.
  intros host w w'.
  destruct (failed_poll_keeps_polling (host := host) Examples.props
              (Responded (Examples.failed 401))
              (Error (lit "Unauthorized: Invalid Bearer Token. Please check your token."))
              w O eq_refl eq_refl eq_refl eq_refl)
    as (He & _ & _ & _ & _ & _ & Hi & _ & Hn & Hretry).
  fold w' in He, Hi, Hn, Hretry.
  split; [exact He | split; [exact Hi |]].
  rewrite (Hretry 1%positive); [now rewrite Hn | now rewrite Hi].
Defined.

(** ** Stopping the poll *)

Section StopClaims.
Context {host : Host}.
Import Polling.

Lemma run_app props evs1 evs2 w :
  run props (evs1 ++ evs2) w = run props evs2 (run props evs1 w).
Proof. revert w. induction evs1 as [|ev r IH]; intros w; simpl; auto. Qed.

Lemma stopPolling_idempotent w : stopPolling (stopPolling w) = stopPolling w.
Proof.
  unfold stopPolling. destruct (pollingIntervalRef (hook w)); reflexivity.
Qed.

Lemma stopPolling_idle w :
  pollingIntervalRef (hook w) = None ->
  isActiveRef (hook w) = false -> isPolling (hook w) = false ->
  stopPolling w = w.
Proof.
  destruct w as [[p e lm la r a] i nh f c]. simpl.
  intros -> -> ->. reflexivity.
Qed.

(** Before the first [startPolling] nothing has happened to the instance. *)
Lemma never_started props evs :
  Forall (fun ev => ev <> StartPolling) evs ->
  run props evs initialWorld = initialWorld.
Proof.
  induction 1 as [|ev r Hev _ IH]; simpl; trivial.
  destruct ev as [| |handle|net]; simpl; [congruence | exact IH | exact IH | exact IH].
Qed.

(** C8.  [stopPolling] on an instance that was never started changes
    nothing: the world after it is the world before it, with both dedup
    refs, [error] and the empty set of scheduled intervals as they were;
    and a second [stopPolling] changes nothing after the first. *)
Theorem stopPolling_noop props evs :
  Forall (fun ev => ev <> StartPolling) evs ->
  let w := run props evs initialWorld in
  stopPolling w = w
  /\ lastActivityIdRef (hook (stopPolling w)) = lastActivityIdRef (hook w)
  /\ lastMessageRef (hook (stopPolling w)) = lastMessageRef (hook w)
  /\ error (hook (stopPolling w)) = error (hook w)
  /\ intervals w = [] /\ intervals (stopPolling w) = []
  /\ (forall w0, stopPolling (stopPolling w0) = stopPolling w0).
Proof.
  intros Hevs w. unfold w. rewrite (never_started props evs Hevs).
  repeat split; trivial. apply stopPolling_idempotent.
Qed.

Lemma clearInterval_all handle l :
  (forall e, In e l -> Some handle = Some (fst e)) -> clearInterval handle l = [].
Proof.
  induction l as [|e r IH]; intros H; simpl; trivial.
  assert (He : fst e = handle) by (specialize (H e (or_introl eq_refl)); congruence).
  rewrite He, Pos.eqb_refl. simpl. apply IH. intros e' He'. apply H. now right.
Qed.

Lemma stopPolling_clears w :
  tidy w ->
  intervals (stopPolling w) = [] /\ pollingIntervalRef (hook (stopPolling w)) = None.
Proof.
  intros [_ Href]. unfold stopPolling.
  destruct (pollingIntervalRef (hook w)) as [handle|] eqn:E; simpl.
  - split; trivial. apply clearInterval_all. intros e He. now rewrite <- (Href e He).
  - split; trivial. destruct (intervals w) as [|e r]; trivial.
    specialize (Href e (or_introl eq_refl)). discriminate.
Qed.

Lemma step_tidy props ev w : tidy w -> tidy (step props ev w).
Proof.
  intros Htidy. destruct ev as [| |handle|net]; simpl.
  - unfold startPolling.
    destruct (negb (truthy (conversationId props)) || negb (truthy (bearerToken props)));
      trivial.
    destruct (isActiveRef (hook w)) eqn:Hact; trivial.
    destruct Htidy as [Hidle _]. specialize (Hidle Hact).
    pose proof (pollBegin_frame props (withHook w
      (mkHook true None (lastMessageRef (hook w)) (lastActivityIdRef (hook w))
              (pollingIntervalRef (hook w)) true))) as Hf.
    cbv zeta in *. simpl in Hf. destruct Hf as (Hi & _ & _ & _ & Ha).
    split; simpl.
    + rewrite Ha. discriminate.
    + rewrite Hi, Hidle. simpl. intros e [<-|[]]. reflexivity.
  - destruct (stopPolling_clears w Htidy) as [Hi Hr]. split.
    + intros _. exact Hi.
    + rewrite Hi. intros e [].
  - destruct (scheduled handle (intervals w)); trivial.
    destruct (pollBegin_frame props w) as (Hi & _ & _ & Hr & Ha).
    destruct Htidy as [H1 H2]. split.
    + rewrite Ha, Hi. exact H1.
    + rewrite Hi, Hr. exact H2.
  - destruct (inflight w) as [|n]; trivial.
    destruct (pollResume_frame props net
                (mkWorld (hook w) (intervals w) (nextHandle w) n (calls w)))
      as (Hi & _ & Hr & Ha & _).
    simpl in Hi, Hr, Ha. destruct Htidy as [H1 H2]. split.
    + rewrite Ha, Hi. exact H1.
    + rewrite Hi, Hr. exact H2.
Qed.

Lemma run_tidy props evs w : tidy w -> tidy (run props evs w).
Proof.
  revert w. induction evs as [|ev r IH]; intros w H; simpl; trivial.
  apply IH, step_tidy, H.
Qed.

Lemma initial_tidy : tidy initialWorld.
Proof. split; [reflexivity | intros e []]. Qed.

Lemma step_stopped props ev w :
  ev <> StartPolling -> stopped w ->
  stopped (step props ev w)
  /\ exists extra,
       calls (step props ev w) = calls w ++ extra
       /\ (List.length extra + inflight (step props ev w) <= inflight w)%nat.
Proof.
  intros Hev [Hi Hr].
  assert (Hnil : forall c : list Call, c = c ++ []) by (intros; now rewrite app_nil_r).
  destruct ev as [| |handle|net]; simpl; [congruence | | |].
  - unfold stopPolling. rewrite Hr. simpl. rewrite Hi.
    repeat split. exists []. simpl. split; [apply Hnil | lia].
  - rewrite Hi. simpl. repeat split; trivial. exists []. simpl. split; [apply Hnil | lia].
  - destruct (inflight w) as [|n] eqn:Hn.
    + repeat split; trivial. exists []. simpl. split; [apply Hnil | lia].
    + destruct (pollResume_frame props net
                  (mkWorld (hook w) (intervals w) (nextHandle w) n (calls w)))
        as (Hi' & Hn' & Hr' & _ & extra & Hc & Hlen).
      simpl in Hi', Hn', Hr', Hc.
      repeat split.
      * now rewrite Hi'.
      * now rewrite Hr'.
      * exists extra. split; [exact Hc|]. rewrite Hn'. lia.
Qed.

Lemma run_stopped props evs w :
  Forall (fun ev => ev <> StartPolling) evs -> stopped w ->
  stopped (run props evs w)
  /\ exists extra,
       calls (run props evs w) = calls w ++ extra
       /\ (List.length extra + inflight (run props evs w) <= inflight w)%nat.
Proof.
  intros Hevs. revert w. induction Hevs as [|ev r Hev _ IH]; intros w Hw; simpl.
  - split; trivial. exists []. simpl. split; [now rewrite app_nil_r | lia].
  - destruct (step_stopped props ev w Hev Hw) as (Hw1 & x1 & Hc1 & Hl1).
    destruct (IH _ Hw1) as (Hw2 & x2 & Hc2 & Hl2).
    split; trivial. exists (x1 ++ x2). split.
    + now rewrite Hc2, Hc1, app_assoc.
    + rewrite length_app. lia.
Qed.

(** C4, as amended.  [stopPolling] clears the interval at once: after it,
    and until a new [startPolling], no interval is scheduled and the
    firing of any handle starts no poll.  Polls whose fetch was in flight
    at the stop are not cancelled: each of them can still invoke the
    callback when it settles, so the invocations after the stop are at
    most the fetches in flight at the stop, and none when there was none. *)
Theorem stopPolling_bounds_callbacks props evs1 evs2 :
  Forall (fun ev => ev <> StartPolling) evs2 ->
  let w := run props (evs1 ++ [StopPolling]) initialWorld in
  let w' := run props evs2 w in
  intervals w = [] /\ intervals w' = []
  /\ (forall handle, step props (IntervalFires handle) w' = w')
  /\ (exists extra,
        calls w' = calls w ++ extra
        /\ (List.length extra + inflight w' <= inflight w)%nat)
  /\ (inflight w = O -> calls w' = calls w).
Proof.
  intros Hevs w w'.
  assert (Hw : stopped w).
  { unfold w. rewrite run_app. simpl.
    apply stopPolling_clears, run_tidy, initial_tidy. }
  destruct (run_stopped props evs2 w Hevs Hw) as ([Hi' Hr'] & extra & Hc & Hlen).
  fold w' in Hi', Hr', Hc, Hlen.
  split; [apply Hw | split; [exact Hi' | split; [| split]]].
  - intros handle. simpl. now rewrite Hi'.
  - exists extra. now split.
  - intros H0. rewrite Hc. destruct extra; [now rewrite app_nil_r | simpl in Hlen; lia].
Qed.

End StopClaims.

Lemma stopPolling_noop_witness :
  let host := RefHost.host in
  let w := Polling.run Examples.props [Polling.StopPolling] Polling.initialWorld in
  Polling.stopPolling w = w /\ Polling.intervals w = [].
Proof.
  intros host w.
  destruct (stopPolling_noop (host := host) Examples.props [Polling.StopPolling])
    as (H & _ & _ & _ & Hi & _).
  - constructor; [discriminate | constructor].
  - split; [exact H | exact Hi].
Defined.

(** C4, as stated, fails: a fetch in flight at the stop still delivers.
    The hook starts and issues its first fetch, [stopPolling] is called,
    and the fetch then settles with a log that holds a bot message: the
    callback is invoked, after the stop. *)
Lemma stopPolling_leaves_fetch_in_flight :
  let host := RefHost.host in
  let w := Polling.run Examples.props [Polling.StartPolling; Polling.StopPolling]
                       Polling.initialWorld in
  let w' := Polling.step Examples.props
              (Polling.FetchSettles (Responded (Examples.okResponse Examples.orderedLog))) w in
  Polling.intervals w = [] /\ Polling.inflight w = 1%nat /\ Polling.calls w = []
  /\ Polling.calls w'
     = [Polling.mkCall (lit "Anything else?") (lit "Anything else?") (lit "A3")]
  /\ Polling.calls w' <> Polling.calls w.
Proof. vm_compute. repeat split. discriminate. Qed.

Lemma stopPolling_bounds_callbacks_witness :
  let host := RefHost.host in
  let w := Polling.run Examples.props
             ([Polling.StartPolling] ++ [Polling.StopPolling]) Polling.initialWorld in
  let w' := Polling.run Examples.props
              [Polling.IntervalFires 1;
               Polling.FetchSettles (Responded (Examples.okResponse Examples.orderedLog));
               Polling.IntervalFires 1] w in
  Polling.intervals w' = []
  /\ exists extra,
       Polling.calls w' = Polling.calls w ++ extra
       /\ (List.length extra + Polling.inflight w' <= Polling.inflight w)%nat.
Proof.
  intros host w w'.
  destruct (stopPolling_bounds_callbacks (host := host) Examples.props
              [Polling.StartPolling]
              [Polling.IntervalFires 1;
               Polling.FetchSettles (Responded (Examples.okResponse Examples.orderedLog));
               Polling.IntervalFires 1])
    as (_ & Hi & _ & Hex & _).
  - repeat constructor; discriminate.
  - split; [exact Hi | exact Hex].
Defined.

(** ** The stabilization detector *)

Section DetectorFacts.
Import Stabilizer.

Lemma or_else_self (s : jsstring) : or_else (Some s) [] = s.
Proof. destruct s; reflexivity. Qed.


(** A stable text that is due for delivery: the cleaned text is handed to
    the callback and the delivery is recorded. *)
Lemma check_delivers immediate env w cur :
  botTyping env && negb immediate = false ->
  latestOf (botMessages env) = Some cur ->
  cur = lastSeenText (vars w) ->
  5 < length cur ->
  immediate = true \/ MIN_STABILIZATION_COUNT <= stabilizationCount (vars w) + 1 ->
  cur <> lastProcessedText (vars w) \/ 5000 < now env - lastProcessedTime (vars w) ->
  5 < length (cleanText cur) ->
  checkAndProcessStableMessage true immediate env w =
  mkWorld
    (mkVars cur (now env) (messageStabilizationTimeout (vars w)) (lastSeenText (vars w)) 0)
    (timeouts w) (nextHandle w) (delivered w ++ [cleanText cur]).
Proof.
  intros Hguard Hlatest Heq Hlen Hcount Hnew Hclean.
  unfold checkAndProcessStableMessage. rewrite Hguard, Hlatest. cbv zeta.
  rewrite or_else_self. rewrite <- Heq, eqb_refl. simpl negb. cbv iota. simpl andb.
  apply Z.ltb_lt in Hlen. rewrite Hlen.
  assert (Hc : immediate || (MIN_STABILIZATION_COUNT <=? stabilizationCount (vars w) + 1) = true).
  { destruct Hcount as [->|H]; [reflexivity|].
    apply Z.leb_le in H. rewrite H. apply orb_true_r. }
  rewrite Hc.
  assert (Hn : negb (eqb cur (lastProcessedText (vars w)))
               || (5000 <? now env - lastProcessedTime (vars w)) = true).
  { destruct Hnew as [H|H].
    - apply eqb_neq in H. now rewrite H.
    - apply Z.ltb_lt in H. rewrite H. apply orb_true_r. }
  rewrite Hn.
  assert (Ht : truthy cur = true).
  { destruct cur; [|reflexivity]. apply Z.ltb_lt in Hlen. discriminate. }
  assert (Htc : truthy (cleanText cur) = true).
  { destruct (cleanText cur); [|reflexivity]. unfold length in Hclean. simpl in Hclean. lia. }
  apply Z.ltb_lt in Hclean. rewrite Ht, Htc, Hclean. reflexivity.
Qed.


(** C10.  A check that finds a text that differs from [lastSeenText] and
    is not longer changes nothing: [lastSeenText], the counter, the
    timeout handle and the pending timeouts, and the last processed text
    and time are as before, and the callback is not invoked. *)
Theorem check_not_longer_changes_nothing onBotMessage immediate env w cur :
  latestOf (botMessages env) = Some cur ->
  cur <> lastSeenText (vars w) ->
  length cur <= length (lastSeenText (vars w)) ->
  let w' := checkAndProcessStableMessage onBotMessage immediate env w in
  w' = w
  /\ lastSeenText (vars w') = lastSeenText (vars w)
  /\ stabilizationCount (vars w') = stabilizationCount (vars w)
  /\ messageStabilizationTimeout (vars w') = messageStabilizationTimeout (vars w)
  /\ timeouts w' = timeouts w
  /\ lastProcessedText (vars w') = lastProcessedText (vars w)
  /\ lastProcessedTime (vars w') = lastProcessedTime (vars w)
  /\ delivered w' = delivered w.
Proof.
  intros Hlatest Hneq Hlen w'.
  assert (Hw : w' = w).
  { unfold w', checkAndProcessStableMessage.
    destruct (botTyping env && negb immediate); trivial.
    rewrite Hlatest. cbv zeta. rewrite or_else_self.
    apply eqb_neq in Hneq. rewrite Hneq.
    apply Z.ltb_ge in Hlen. rewrite Hlen. reflexivity. }
  rewrite Hw. repeat split.
Qed.

(** Whatever a check does to the deliveries, it appends at most the
    cleaned current text, and only when that is longer than 5. *)
Lemma check_delivery onBotMessage immediate env w :
  let w' := checkAndProcessStableMessage onBotMessage immediate env w in
  delivered w' = delivered w
  \/ exists cur,
       latestOf (botMessages env) = Some cur
       /\ delivered w' = delivered w ++ [cleanText cur]
       /\ 5 < length (cleanText cur).
Proof.
  unfold checkAndProcessStableMessage.
  destruct (botTyping env && negb immediate); [now left|].
  destruct (latestOf (botMessages env)) as [cur|]; [|now left].
  cbv zeta. rewrite or_else_self.
  destruct (negb (eqb cur (lastSeenText (vars w))) && _); [now left|].
  destruct (eqb cur (lastSeenText (vars w)) && _); [|now left].
  destruct (immediate || _); [|now left].
  destruct (_ && truthy cur); [|now left].
  destruct (truthy (cleanText cur) && (5 <? length (cleanText cur))) eqn:Hc; [|now left].
  right. exists cur. apply andb_prop in Hc. destruct Hc as [_ Hc].
  apply Z.ltb_lt in Hc. simpl. auto.
Qed.

End DetectorFacts.

Lemma check_not_longer_changes_nothing_witness :
  let w := Stabilizer.run true [Stabilizer.Check (Examples.shows 0 "Hello world")]
                          Stabilizer.initialWorld in
  Stabilizer.checkAndProcessStableMessage true false (Examples.shows 100 "Goodbye") w = w.
Proof.
  intros w.
  apply (check_not_longer_changes_nothing true false (Examples.shows 100 "Goodbye") w
           (lit "Goodbye") eq_refl).
  - vm_compute. discriminate.
  - vm_compute. discriminate.
Defined.

Section DetectorClaims.
Import Stabilizer.

(** C7.  The cleaning turns "Great choice! (U+1F389) Let's proceed" into
    "Great choice! Let's proceed"; the detector, shown that text and then
    its timeout, hands exactly that to the callback; and a check invokes
    the callback only with the cleaned current text, and only when the
    cleaned text is longer than 5. *)
Theorem cleanText_emoji_delivery :
  cleanText Examples.greatChoice = lit "Great choice! Let's proceed"
  /\ delivered
       (run true
          [ Check (mkEnv 0 false [Examples.greatChoice]);
            TimeoutFires 1 (mkEnv 800 false [Examples.greatChoice]) ]
          initialWorld)
     = [lit "Great choice! Let's proceed"]
  /\ (forall onBotMessage immediate env w,
        let w' := checkAndProcessStableMessage onBotMessage immediate env w in
        delivered w' = delivered w
        \/ exists cur,
             latestOf (botMessages env) = Some cur
             /\ delivered w' = delivered w ++ [cleanText cur]
             /\ 5 < length (cleanText cur)).
Proof.
  split; [|split].
  - vm_compute. reflexivity.
  - vm_compute. reflexivity.
  - apply check_delivery.
Qed.



Section OnText.
Variables (text : jsstring) (handle : positive) (dueAt since : Z).
Hypothesis text_long : 5 < length text.
Hypothesis clean_long : 5 < length (cleanText text).

Lemma latestOf_single : latestOf [text] = Some text.
Proof. reflexivity. Qed.





End OnText.

End DetectorClaims.

(* ===================================================================== *)
(** * Further properties of the service *)
(* ===================================================================== *)

Section BotTextsFacts.
Import BotTexts.

Lemma indexOf_bounds text self :
  (In text self -> 0 <= indexOf text self < Z.of_nat (List.length self))
  /\ (~ In text self -> indexOf text self = -1).
Proof.
  induction self as [|t r [IHin IHout]]; cbn [indexOf In List.length].
  - split; [intros [] | reflexivity].
  - rewrite Nat2Z.inj_succ. destruct (eqb t text) eqn:E.
    + apply eqb_eq in E. split; [lia | intros H; exfalso; apply H; now left].
    + apply eqb_neq in E. split.
      * intros [H|H]; [congruence|]. specialize (IHin H).
        destruct (indexOf text r <? 0) eqn:L; [apply Z.ltb_lt in L; lia | lia].
      * intros H. rewrite IHout; [reflexivity | intros H'; apply H; now right].
Qed.

Lemma indexOf_app text pre rest :
  indexOf text (pre ++ text :: rest) = Z.of_nat (List.length pre) <-> ~ In text pre.
Proof.
  induction pre as [|t r IH]; cbn [indexOf In List.length app].
  - rewrite eqb_refl. split; [tauto | reflexivity].
  - rewrite Nat2Z.inj_succ. destruct (eqb t text) eqn:E.
    + apply eqb_eq in E. split; [lia | intros H; exfalso; apply H; now left].
    + apply eqb_neq in E.
      destruct (indexOf_bounds text (r ++ text :: rest)) as [Hin _].
      specialize (Hin (in_elt text r rest)).
      destruct (indexOf text (r ++ text :: rest) <? 0) eqn:L;
        [apply Z.ltb_lt in L; lia|].
      split.
      * intros H [H'|H']; [congruence|]. apply IH; [lia | exact H'].
      * intros H. assert (~ In text r) by tauto. apply IH in H0. lia.
Qed.

(** The second [.filter] keeps the first occurrence of each text. *)
Lemma firsts_spec self l pre :
  self = pre ++ l ->
  let kept := filterAt (fun text index => indexOf text self =? index)
                       (Z.of_nat (List.length pre)) l in
  NoDup kept
  /\ (forall t, In t kept <-> In t l /\ ~ In t pre).
Proof.
  revert pre. induction l as [|x r IH]; intros pre Hself; simpl.
  - split; [constructor | intros t; tauto].
  - assert (Hself' : self = (pre ++ [x]) ++ r) by (now rewrite <- app_assoc).
    specialize (IH _ Hself').
    rewrite length_app in IH. simpl List.length in IH.
    replace (Z.of_nat (List.length pre + 1)) with (Z.of_nat (List.length pre) + 1) in IH by lia.
    cbv zeta in IH. destruct IH as [IHnd IHin].
    destruct (indexOf x self =? Z.of_nat (List.length pre)) eqn:E.
    + apply Z.eqb_eq in E. rewrite Hself in E. apply indexOf_app in E.
      split.
      * constructor; trivial. rewrite IHin. intros [_ H]. apply H.
        apply in_or_app. right. now left.
      * intros t. simpl. rewrite IHin. split.
        -- intros [<-|[H1 H2]]; [split; [now left | exact E]|].
           split; [now right|]. intros H. apply H2, in_or_app. now left.
        -- intros [[<-|H1] H2]; [now left|].
           destruct (list_eq_dec Z.eq_dec x t) as [<-|Hne]; [now left|].
           right. split; trivial. intros H. apply in_app_or in H.
           destruct H as [H|[H|[]]]; [tauto | congruence].
    + apply Z.eqb_neq in E. rewrite Hself in E.
      assert (Hx : In x pre).
      { destruct (in_dec (list_eq_dec Z.eq_dec) x pre) as [H|H]; trivial.
        apply indexOf_app with (rest := r) in H. congruence. }
      split; trivial.
      intros t. rewrite IHin. split.
      * intros [H1 H2]. split; [now right|]. intros H. apply H2, in_or_app. now left.
      * intros [[<-|H1] H2]; [contradiction|].
        split; trivial. intros H. apply in_app_or in H.
        destruct H as [H|[<-|[]]]; [tauto | contradiction].
Qed.

Lemma keepsText_text a :
  keepsText a = true ->
  exists s, Activity.text a = Some s /\ trim s <> []
            /\ DirectLine.isMessage a = true /\ DirectLine.isBot a = true.
Proof.
  unfold keepsText. destruct (Activity.text a) as [s|].
  - destruct (DirectLine.isMessage a); simpl; [|discriminate].
    destruct (truthy s); simpl; [|discriminate].
    destruct (length (trim s) =? 0) eqn:L; [discriminate|].
    intros Hbot. exists s. repeat split; trivial.
    intros Hnil. rewrite Hnil in L. discriminate.
  - rewrite orb_true_r. discriminate.
Qed.

Lemma keepsText_intro a s :
  Activity.text a = Some s -> trim s <> [] ->
  DirectLine.isMessage a = true -> DirectLine.isBot a = true ->
  keepsText a = true.
Proof.
  intros Ht Hne Hm Hb. unfold keepsText. rewrite Ht, Hm, Hb. simpl.
  assert (Hs : truthy s = true).
  { destruct s; [|reflexivity]. exfalso. apply Hne. reflexivity. }
  rewrite Hs. simpl.
  destruct (trim s) as [|c r] eqn:E; [congruence|].
  unfold length. simpl List.length. 
  destruct (Z.of_nat (S (List.length r)) =? 0) eqn:Z0; [apply Z.eqb_eq in Z0; lia | reflexivity].
Qed.

Lemma trimmedTexts_returns l :
  (forall a, In a l -> Activity.text a <> None) ->
  exists texts,
    trimmedTexts l = Return texts
    /\ forall t, In t texts <-> exists a s, In a l /\ Activity.text a = Some s /\ t = trim s.
Proof.
  induction l as [|a r IH]; intros H; simpl.
  - exists []. split; trivial. intros t. split; [intros [] | intros (a & s & [] & _)].
  - destruct (Activity.text a) as [s|] eqn:E; [|exfalso; apply (H a); [now left | exact E]].
    destruct IH as (texts & Hr & Hin); [intros b Hb; apply H; now right|].
    rewrite Hr. simpl. exists (trim s :: texts). split; trivial.
    intros t. simpl. rewrite Hin. split.
    + intros [<-|(b & s' & Hb & Hs & ->)].
      * exists a, s. auto.
      * exists b, s'. auto.
    + intros (b & s' & [<-|Hb] & Hs & ->).
      * left. congruence.
      * right. exists b, s'. auto.
Qed.

Lemma extracted_member data log texts a s :
  ApiBody.activities data = Some log ->
  extractBotMessages (Some data) = Return texts ->
  In a log -> keepsText a = true -> Activity.text a = Some s ->
  In (trim s) texts.
Proof.
  intros Hlog Hex Ha Hk Hs. unfold extractBotMessages in Hex. rewrite Hlog in Hex.
  destruct (trimmedTexts_returns (filter keepsText log)) as (all & Hr & Hin).
  { intros b Hb. apply filter_In in Hb. destruct Hb as [_ Hb].
    destruct (keepsText_text b Hb) as (s' & Hs' & _). congruence. }
  rewrite Hr in Hex. simpl in Hex. injection Hex as <-.
  destruct (firsts_spec all all [] eq_refl) as [_ Hkept]. simpl in Hkept.
  apply Hkept. split; [|tauto].
  apply Hin. exists a, s. repeat split; trivial. apply filter_In. now split.
Qed.


End BotTextsFacts.


Section SortOrder.
Context {A : Type} (comparefn : A -> A -> option Z).

Lemma insert_permutation (x : A) (l : list A) :
  Permutation (DirectLine.insert comparefn x l) (x :: l).
Proof.
  induction l as [|y r IH]; simpl; trivial.
  destruct (DirectLine.sortsAfter comparefn x y); trivial.
  rewrite IH. apply perm_swap.
Qed.

Lemma sort_permutation (l : list A) : Permutation (DirectLine.sort comparefn l) l.
Proof.
  induction l as [|x r IH]; simpl; trivial.
  rewrite insert_permutation. now constructor.
Qed.

Lemma insert_sorted (x : A) (l all : list A) :
  consistentOn comparefn all -> In x all -> incl l all ->
  StronglySorted (fun a b => DirectLine.sortsAfter comparefn a b = false) l ->
  StronglySorted (fun a b => DirectLine.sortsAfter comparefn a b = false)
                 (DirectLine.insert comparefn x l).
Proof.
  intros [Hasym Htrans] Hx Hincl Hs.
  induction Hs as [|y r Hs IH Hy]; simpl.
  - repeat constructor.
  - assert (Hyin : In y all) by (apply Hincl; now left).
    assert (Hrin : incl r all) by (intros z Hz; apply Hincl; now right).
    destruct (DirectLine.sortsAfter comparefn x y) eqn:Hxy.
    + constructor; [now apply IH|].
      rewrite Forall_forall in *. intros z Hz.
      apply In_insert in Hz. destruct Hz as [->|Hz]; [|now apply Hy].
      now apply Hasym.
    + constructor; [now constructor|].
      constructor; trivial.
      rewrite Forall_forall in *. intros z Hz.
      apply (Htrans x y z); trivial; [now apply Hrin | now apply Hy].
Qed.

Lemma sort_sorted (l : list A) :
  consistentOn comparefn l ->
  StronglySorted (fun a b => DirectLine.sortsAfter comparefn a b = false)
                 (DirectLine.sort comparefn l).
Proof.
  intros Hcons.
  assert (H : forall r, incl r l ->
            StronglySorted (fun a b => DirectLine.sortsAfter comparefn a b = false)
                           (DirectLine.sort comparefn r)).
  { induction r as [|x r IH]; intros Hincl; simpl; [constructor|].
    apply (insert_sorted x _ l); trivial.
    - apply Hincl. now left.
    - intros z Hz. apply In_sort in Hz. apply Hincl. now right.
    - apply IH. intros z Hz. apply Hincl. now right. }
  apply H, incl_refl.
Qed.

End SortOrder.

Section ServiceFacts.
Context {host : Host}.

(** X2.  When every retained activity has a timestamp that is a date,
    the list the service sorts (and logs as "LATEST" first, then "older")
    holds exactly the retained activities, newest first: along it the
    times never increase. *)
Theorem botActivities_newest_first log :
  (forall a, In a (filter DirectLine.retained log) -> timeOf a <> None) ->
  Permutation (DirectLine.botActivitiesOf log) (filter DirectLine.retained log)
  /\ StronglySorted
       (fun a b => forall ta tb, timeOf a = Some ta -> timeOf b = Some tb -> tb <= ta)
       (DirectLine.botActivitiesOf log).
Proof.
  intros Htimed. unfold DirectLine.botActivitiesOf.
  split; [apply sort_permutation|].
  pose proof (sort_sorted DirectLine.compareActivities _
                (timed_consistent _ Htimed)) as Hs.
  induction Hs as [|a r Hs IH Ha]; constructor; trivial.
  rewrite Forall_forall in *. intros b Hb ta tb Eta Etb.
  specialize (Ha b Hb). rewrite (sortsAfter_timed a b ta tb Eta Etb) in Ha.
  apply Z.ltb_ge in Ha. lia.
Qed.

Lemma retained_without_text_throws data log a :
  ApiBody.activities data = Some log ->
  In a log -> DirectLine.retained a = true -> Activity.text a = None ->
  DirectLine.getLatestBotMessage (Some data) = Throw (cannotRead "substring").
Proof.
  intros Hlog Hin Hret Htext.
  unfold DirectLine.getLatestBotMessage. rewrite Hlog. cbv zeta.
  assert (Ha : In a (DirectLine.botActivitiesOf log)).
  { unfold DirectLine.botActivitiesOf. apply In_sort, filter_In. now split. }
  rewrite (logBotActivities_throws _ a Ha Htext).
  destruct (DirectLine.botActivitiesOf log) as [|b r]; [destruct Ha|].
  reflexivity.
Qed.

Lemma latest_is_retained data log m :
  ApiBody.activities data = Some log ->
  DirectLine.getLatestBotMessage (Some data) = Return (Some m) ->
  In (BotMessage.activity m) log
  /\ DirectLine.retained (BotMessage.activity m) = true
  /\ m = DirectLine.toBotMessage (BotMessage.activity m)
  /\ (forall b, In b log -> DirectLine.retained b = true -> Activity.text b <> None).
Proof.
  intros Hlog Hret.
  assert (Hall : forall b, In b log -> DirectLine.retained b = true ->
                           Activity.text b <> None).
  { intros b Hb Hr Hnone.
    rewrite (retained_without_text_throws data log b Hlog Hb Hr Hnone) in Hret.
    discriminate. }
  rewrite (getLatestBotMessage_head data log Hlog) in Hret.
  2:{ intros b Hb. apply filter_In in Hb. now apply Hall. }
  destruct (DirectLine.botActivitiesOf log) as [|latest rest] eqn:E; [discriminate|].
  injection Hret as <-. simpl.
  assert (Hin : In latest (filter DirectLine.retained log)).
  { apply (In_sort DirectLine.compareActivities). unfold DirectLine.botActivitiesOf in E.
    rewrite E. now left. }
  apply filter_In in Hin. destruct Hin as [Hin Hr]. auto.
Qed.

(** X3.  A message that [getLatestBotMessage] returns is made from an
    activity of the log that is a message, is accepted by the bot
    classifier and has a non-blank text or an attachment; it carries that
    activity's id and timestamp and its trimmed text; and then every
    retained activity of the log has a text. *)
Theorem getLatestBotMessage_provenance data log m :
  ApiBody.activities data = Some log ->
  DirectLine.getLatestBotMessage (Some data) = Return (Some m) ->
  let a := BotMessage.activity m in
  In a log
  /\ DirectLine.isMessage a = true /\ DirectLine.isBot a = true
  /\ (DirectLine.hasText a = true \/ DirectLine.hasAttachments a = true)
  /\ BotMessage.id m = Activity.id a
  /\ BotMessage.timestamp m = Activity.timestamp a
  /\ (exists s, Activity.text a = Some s /\ BotMessage.text m = trim s)
  /\ (forall b, In b log -> DirectLine.retained b = true -> Activity.text b <> None).
Proof.
  intros Hlog Hret a.
  destruct (latest_is_retained data log m Hlog Hret) as (Hin & Hr & Hm & Hall).
  fold a in Hin, Hr, Hm.
  assert (Hparts : DirectLine.isMessage a = true /\ DirectLine.isBot a = true
                   /\ (DirectLine.hasText a = true \/ DirectLine.hasAttachments a = true)).
  { unfold DirectLine.retained in Hr.
    destruct (DirectLine.isMessage a), (DirectLine.isBot a),
             (DirectLine.hasText a), (DirectLine.hasAttachments a);
      simpl in Hr; try discriminate; auto. }
  destruct Hparts as (Hmsg & Hbot & Hta).
  repeat split; trivial; try (rewrite Hm; reflexivity).
  specialize (Hall a Hin Hr).
  destruct (Activity.text a) as [s|] eqn:Es; [|congruence].
  exists s. split; trivial. rewrite Hm. simpl. rewrite Es. destruct s; reflexivity.
Qed.

(** X4.  The two selectors agree: a latest message with a text has that
    text among the texts [extractBotMessages] returns for the same data. *)
Theorem latest_text_is_extracted data log m texts :
  ApiBody.activities data = Some log ->
  DirectLine.getLatestBotMessage (Some data) = Return (Some m) ->
  BotMessage.text m <> [] ->
  BotTexts.extractBotMessages (Some data) = Return texts ->
  In (BotMessage.text m) texts.
Proof.
  intros Hlog Hret Hne Hex.
  destruct (latest_is_retained data log m Hlog Hret) as (Hin & Hr & Hm & Hall).
  set (a := BotMessage.activity m) in *.
  specialize (Hall a Hin Hr).
  destruct (Activity.text a) as [s|] eqn:Es; [|congruence].
  assert (Ht : BotMessage.text m = trim s).
  { rewrite Hm. simpl. rewrite Es. destruct s; reflexivity. }
  rewrite Ht in *.
  apply (extracted_member data log texts a s); trivial.
  unfold DirectLine.retained in Hr.
  destruct (DirectLine.isMessage a) eqn:Emsg; [|discriminate].
  destruct (DirectLine.isBot a) eqn:Ebot;
    [|destruct (negb (DirectLine.hasText a) && negb (DirectLine.hasAttachments a));
      discriminate].
  now apply (keepsText_intro a s).
Qed.

End ServiceFacts.

Lemma getLatestBotMessage_provenance_witness :
  let host := RefHost.host in
  let m := DirectLine.toBotMessage
             (Examples.say "A3" "Anything else?" "2024-03-01T12:00:09Z") in
  In (BotMessage.activity m) Examples.orderedLog
  /\ DirectLine.isBot (BotMessage.activity m) = true.
Proof.
  intros host m.
  destruct (getLatestBotMessage_provenance (host := host)
              (Examples.body Examples.orderedLog) Examples.orderedLog m eq_refl)
    as (Hin & _ & Hb & _).
  - vm_compute. reflexivity.
  - split; assumption.
Defined.

Lemma botActivities_newest_first_witness :
  let host := RefHost.host in
  Permutation (DirectLine.botActivitiesOf Examples.orderedLog)
              (filter DirectLine.retained Examples.orderedLog).
Proof.
  intros host.
  apply (botActivities_newest_first (host := host) Examples.orderedLog).
  intros a Ha. vm_compute in Ha.
  destruct Ha as [<-|[<-|[<-|[]]]]; vm_compute; discriminate.
Defined.

Lemma latest_text_is_extracted_witness :
  let host := RefHost.host in
  In (lit "Anything else?")
     [lit "Welcome"; lit "Anything else?"; lit "How can I help?"].
Proof.
  intros host.
  apply (latest_text_is_extracted (host := host)
           (Examples.body Examples.orderedLog) Examples.orderedLog
           (DirectLine.toBotMessage
              (Examples.say "A3" "Anything else?" "2024-03-01T12:00:09Z"))
           [lit "Welcome"; lit "Anything else?"; lit "How can I help?"]
           eq_refl).
  - vm_compute. reflexivity.
  - vm_compute. discriminate.
  - vm_compute. reflexivity.
Defined.

(* ===================================================================== *)
(** * Further properties of the polling hook *)
(* ===================================================================== *)

Section PollingFacts.
Context {host : Host}.
Import Polling PollingState.

Lemma deliver_flags props m w :
  isPolling (hook (deliver props m w)) = isPolling (hook w)
  /\ error (hook (deliver props m w)) = error (hook w)
  /\ nextHandle (deliver props m w) = nextHandle w.
Proof.
  unfold deliver. cbv zeta.
  destruct (isNewMessage _ _ _); [destruct (onBotMessage props)|]; simpl; auto.
Qed.

Lemma pollResume_isPolling props net w :
  isPolling (hook (pollResume props net w)) = isPolling (hook w).
Proof.
  unfold pollResume. destruct (bind _ _) as [[m|]|e]; trivial.
  apply deliver_flags.
Qed.

Lemma pollBegin_isPolling props w :
  isPolling (hook (pollBegin props w)) = isPolling (hook w).
Proof.
  unfold pollBegin.
  destruct (negb (truthy (conversationId props)) || negb (truthy (bearerToken props)));
    reflexivity.
Qed.

Lemma step_steady props ev w : steady props w -> steady props (step props ev w).
Proof.
  intros Hs. pose proof Hs as [Hflag Href]. destruct ev as [| |handle|net]; simpl.
  - unfold startPolling.
    destruct (negb (truthy (conversationId props)) || negb (truthy (bearerToken props)));
      [exact Hs|].
    destruct (isActiveRef (hook w)) eqn:Hact; [exact Hs|].
    destruct (pollingIntervalRef (hook w)) as [h|]; [destruct Href; congruence|].
    destruct Href as [_ Hi].
    pose proof (pollBegin_frame props (withHook w
      (mkHook true None (lastMessageRef (hook w)) (lastActivityIdRef (hook w))
              None true))) as Hf.
    pose proof (pollBegin_isPolling props (withHook w
      (mkHook true None (lastMessageRef (hook w)) (lastActivityIdRef (hook w))
              None true))) as Hp.
    cbv zeta in *. simpl in Hf, Hp. destruct Hf as (Hi' & _ & _ & _ & Ha).
    split; simpl.
    + now rewrite Hp, Ha.
    + rewrite Ha, Hi', Hi. split; reflexivity.
  - unfold stopPolling. split; simpl; trivial.
    destruct (pollingIntervalRef (hook w)) as [h|]; simpl.
    + destruct Href as [_ ->]. simpl. rewrite Pos.eqb_refl. split; reflexivity.
    + destruct Href as [_ ->]. split; reflexivity.
  - destruct (scheduled handle (intervals w)); [|exact Hs].
    destruct (pollBegin_frame props w) as (Hi & _ & _ & Hr & Ha).
    split.
    + now rewrite pollBegin_isPolling, Ha.
    + now rewrite Hr, Ha, Hi.
  - destruct (inflight w) as [|n]; [exact Hs|].
    destruct (pollResume_frame props net
                (mkWorld (hook w) (intervals w) (nextHandle w) n (calls w)))
      as (Hi & _ & Hr & Ha & _).
    simpl in Hi, Hr, Ha. split.
    + now rewrite pollResume_isPolling, Ha.
    + now rewrite Hr, Ha, Hi.
Qed.

Lemma run_steady props evs w : steady props w -> steady props (run props evs w).
Proof.
  revert w. induction evs as [|ev r IH]; intros w H; simpl; trivial.
  apply IH, step_steady, H.
Qed.

(** X5.  However [startPolling], [stopPolling], interval firings and
    settling fetches follow one another, the hook has at most one
    interval scheduled: it reports [isPolling] exactly when that interval
    is scheduled under the handle it holds, and otherwise none is. *)
Theorem at_most_one_interval props evs :
  let w := run props evs initialWorld in
  (List.length (intervals w) <= 1)%nat
  /\ (isPolling (hook w) = true ->
        exists handle, pollingIntervalRef (hook w) = Some handle
                       /\ intervals w = [(handle, pollInterval props)])
  /\ (isPolling (hook w) = false ->
        pollingIntervalRef (hook w) = None /\ intervals w = []).
Proof.
  intros w.
  assert (Hs : steady props w).
  { apply run_steady. split; [reflexivity | split; reflexivity]. }
  destruct Hs as [Hflag Href].
  destruct (pollingIntervalRef (hook w)) as [h|]; destruct Href as [Ha Hi];
    rewrite Hflag, Ha, Hi; repeat split; simpl; try lia; try discriminate.
  intros _. now exists h.
Qed.

(** X6.  Without both credentials nothing ever happens: [startPolling]
    returns at once, so after any events no fetch was issued, no interval
    is scheduled, no error is set and the callback was never invoked. *)
Theorem missing_credentials_never_poll props evs :
  truthy (conversationId props) = false \/ truthy (bearerToken props) = false ->
  run props evs initialWorld = initialWorld.
Proof.
  intros Hcreds.
  assert (Hguard : negb (truthy (conversationId props))
                   || negb (truthy (bearerToken props)) = true).
  { destruct Hcreds as [-> | ->]; [reflexivity | apply orb_true_r]. }
  induction evs as [|ev r IH]; simpl; trivial.
  destruct ev as [| |handle|net]; simpl; trivial.
  unfold startPolling. now rewrite Hguard.
Qed.

End PollingFacts.

Lemma missing_credentials_never_poll_witness :
  let host := RefHost.host in
  Polling.run (Polling.mkProps (lit "conv-1") [] true 2000)
    [Polling.StartPolling; Polling.IntervalFires 1;
     Polling.FetchSettles (Responded (Examples.okResponse Examples.orderedLog))]
    Polling.initialWorld
  = Polling.initialWorld.
Proof.
  intros host.
  apply (missing_credentials_never_poll (host := host)).
  right. reflexivity.
Defined.

Section DedupFacts.
Context {host : Host}.
Import Polling PollingState.

Lemma inStep_same w w' :
  calls w' = calls w ->
  lastMessageRef (hook w') = lastMessageRef (hook w) ->
  lastActivityIdRef (hook w') = lastActivityIdRef (hook w) ->
  inStep w -> inStep w'.
Proof.
  intros Hc Hm Ha [H1 H2]. split.
  - intros pre c E. rewrite Hm, Ha. apply (H1 pre). now rewrite <- Hc.
  - intros pre c1 c2 post E. apply (H2 pre c1 c2 post). now rewrite <- Hc.
Qed.

Lemma deliver_inStep props m w :
  onBotMessage props = true -> inStep w -> inStep (deliver props m w).
Proof.
  intros Hcb [Hlast Hadj]. unfold deliver. cbv zeta.
  destruct (isNewMessage _ _ (hook w)) eqn:Hnew; [|now split].
  rewrite Hcb. split; simpl.
  - intros pre c E. apply app_inj_tail in E. destruct E as [_ <-]. split; reflexivity.
  - intros pre c1 c2 post E.
    destruct (rev post) as [|z tsop] eqn:Er.
    + assert (post = []) by (rewrite <- (rev_involutive post), Er; reflexivity). subst post.
      change (pre ++ [c1; c2]) with (pre ++ [c1] ++ [c2]) in E.
      rewrite app_assoc in E. apply app_inj_tail in E. destruct E as [E <-].
      destruct (Hlast pre c1 E) as [Hm Ha].
      unfold sameDelivery. simpl. rewrite Hm, Ha.
      unfold isNewMessage in Hnew. apply orb_true_iff in Hnew.
      rewrite !negb_eqb_true in Hnew. intros [E1 E2]. destruct Hnew as [H|H]; congruence.
    + assert (post = rev tsop ++ [z]).
      { rewrite <- (rev_involutive post), Er. reflexivity. }
      subst post.
      change (pre ++ c1 :: c2 :: rev tsop ++ [z])
        with (pre ++ (c1 :: c2 :: rev tsop) ++ [z]) in E.
      rewrite app_assoc in E. apply app_inj_tail in E. destruct E as [E _].
      apply (Hadj pre c1 c2 (rev tsop)). now symmetry.
Qed.

Lemma deliver_silent props m w :
  onBotMessage props = false -> calls (deliver props m w) = calls w.
Proof.
  intros Hcb. unfold deliver. cbv zeta. rewrite Hcb.
  destruct (isNewMessage _ _ _); reflexivity.
Qed.

Lemma step_refs_calls props ev w :
  (forall net, ev <> FetchSettles net) ->
  calls (step props ev w) = calls w
  /\ lastMessageRef (hook (step props ev w)) = lastMessageRef (hook w)
  /\ lastActivityIdRef (hook (step props ev w)) = lastActivityIdRef (hook w).
Proof.
  intros Hev. destruct ev as [| |handle|net]; simpl.
  - unfold startPolling.
    destruct (negb (truthy (conversationId props)) || negb (truthy (bearerToken props)));
      [auto|].
    destruct (isActiveRef (hook w)); [auto|].
    unfold pollBegin. simpl.
    destruct (negb (truthy (conversationId props)) || negb (truthy (bearerToken props)));
      simpl; auto.
  - auto.
  - destruct (scheduled handle (intervals w)); [|auto].
    unfold pollBegin.
    destruct (negb (truthy (conversationId props)) || negb (truthy (bearerToken props)));
      simpl; auto.
  - exfalso. now apply (Hev net).
Qed.

Lemma step_inStep props ev w :
  onBotMessage props = true -> inStep w -> inStep (step props ev w).
Proof.
  intros Hcb Hw.
  assert (Hquiet : forall e, (forall net, e <> FetchSettles net) ->
                             inStep (step props e w)).
  { intros e He. destruct (step_refs_calls props e w He) as (Hc & Hm & Ha).
    exact (inStep_same _ _ Hc Hm Ha Hw). }
  destruct ev as [| |handle|net]; try (apply Hquiet; discriminate).
  simpl. destruct (inflight w) as [|n]; trivial.
  assert (Hw' : inStep (mkWorld (hook w) (intervals w) (nextHandle w) n (calls w))).
  { apply (inStep_same w); trivial. }
  unfold pollResume. destruct (bind _ _) as [[m|]|e]; trivial.
  now apply deliver_inStep.
Qed.

Lemma run_inStep props evs w :
  onBotMessage props = true -> inStep w -> inStep (run props evs w).
Proof.
  intros Hcb. revert w. induction evs as [|ev r IH]; intros w H; simpl; trivial.
  apply IH, step_inStep; trivial.
Qed.

Lemma run_silent props evs w :
  onBotMessage props = false -> calls (run props evs w) = calls w.
Proof.
  intros Hcb. revert w. induction evs as [|ev r IH]; intros w; simpl; trivial.
  rewrite IH.
  assert (Hquiet : forall e, (forall net, e <> FetchSettles net) ->
                             calls (step props e w) = calls w).
  { intros e He. now destruct (step_refs_calls props e w He). }
  destruct ev as [| |handle|net]; try (apply Hquiet; discriminate).
  simpl. destruct (inflight w) as [|n]; trivial.
  unfold pollResume. destruct (bind _ _) as [[m|]|e]; trivial.
  now rewrite deliver_silent.
Qed.

(** X7.  Over any sequence of starts, stops, interval firings and
    settling fetches, successful, failed or empty, the callback is never
    invoked twice in a row with the same text for the same key. *)
Theorem callback_never_repeats props evs pre c1 c2 post :
  calls (run props evs initialWorld) = pre ++ c1 :: c2 :: post ->
  ~ (argument c1 = argument c2
     /\ lastActivityIdAtCall c1 = lastActivityIdAtCall c2).
Proof.
  intros E. destruct (onBotMessage props) eqn:Hcb.
  - assert (H : inStep (run props evs initialWorld)).
    { apply run_inStep; trivial. split.
      - intros p c Ec. destruct p; discriminate.
      - intros p d1 d2 q Ec. destruct p; discriminate. }
    destruct H as [_ H]. exact (H pre c1 c2 post E).
  - rewrite (run_silent props evs _ Hcb) in E. destruct pre; discriminate.
Qed.

Lemma run_refs_calls props evs w :
  Forall (fun ev => forall net, ev <> FetchSettles net) evs ->
  calls (run props evs w) = calls w
  /\ lastMessageRef (hook (run props evs w)) = lastMessageRef (hook w)
  /\ lastActivityIdRef (hook (run props evs w)) = lastActivityIdRef (hook w).
Proof.
  intros Hevs. revert w. induction Hevs as [|ev r Hev _ IH]; intros w; simpl; auto.
  destruct (IH (step props ev w)) as (Hc & Hm & Ha).
  destruct (step_refs_calls props ev w Hev) as (Hc' & Hm' & Ha').
  repeat split; congruence.
Qed.

(** X8.  The dedup refs outlive a stop: once a message was through the
    delivery step, stopping and starting again (and any interval firings)
    before the next fetch settles with the same latest message does not
    deliver it again. *)
Theorem restart_keeps_dedup props m w evs net :
  Forall (fun ev => forall n, ev <> FetchSettles n) evs ->
  (activitiesData <- DirectLine.getBotActivities (conversationId props)
                       (bearerToken props) net ;;
   DirectLine.getLatestBotMessage (Some activitiesData)) = Return (Some m) ->
  let w1 := deliver props m w in
  calls (run props (evs ++ [FetchSettles net]) w1) = calls w1.
Proof.
  intros Hevs Hnet w1. rewrite run_app. simpl.
  destruct (run_refs_calls props evs w1 Hevs) as (Hc & Hm & Ha).
  destruct (inflight (run props evs w1)) as [|n]; trivial.
  unfold pollResume. rewrite Hnet.
  rewrite deliver_not_new; trivial.
  pose proof (deliver_settles props m w) as Hold. fold w1 in Hold.
  unfold isNewMessage in *. simpl. now rewrite Hm, Ha.
Qed.

(** X9.  Once [error] is set it stays set, whatever later polls return,
    until [startPolling] starts the hook again: a poll that succeeds does
    not clear it. *)
Theorem error_stays_until_restart props evs w :
  Forall (fun ev => ev <> StartPolling) evs ->
  error (hook w) <> None ->
  error (hook (run props evs w)) <> None.
Proof.
  intros Hevs. revert w. induction Hevs as [|ev r Hev _ IH]; intros w He; simpl; trivial.
  apply IH. destruct ev as [| |handle|net]; simpl; [congruence | exact He | |].
  - destruct (scheduled handle (intervals w)); trivial.
    unfold pollBegin.
    destruct (negb (truthy (conversationId props)) || negb (truthy (bearerToken props)));
      simpl; [discriminate | exact He].
  - destruct (inflight w) as [|n]; trivial.
    unfold pollResume. destruct (bind _ _) as [[m|]|e]; simpl; trivial; [|discriminate].
    destruct (deliver_flags props m
                (mkWorld (hook w) (intervals w) (nextHandle w) n (calls w)))
      as (_ & -> & _).
    exact He.
Qed.

(** X10.  A log with a bot card that has no text stops every delivery:
    the poll that fetches it records the TypeError of the selection as
    [error], leaves both dedup refs as they were and does not invoke the
    callback, even when the log also holds newer bot messages with text. *)
Theorem card_in_log_blocks_delivery props r data log a w n :
  truthy (conversationId props) = true -> truthy (bearerToken props) = true ->
  ok r = true -> json r = Some data -> ApiBody.activities data = Some log ->
  In a log -> DirectLine.retained a = true -> Activity.text a = None ->
  inflight w = S n ->
  let w' := step props (FetchSettles (Responded r)) w in
  calls w' = calls w
  /\ lastMessageRef (hook w') = lastMessageRef (hook w)
  /\ lastActivityIdRef (hook w') = lastActivityIdRef (hook w)
  /\ error (hook w') = Some (message (cannotRead "substring")).
Proof.
  intros Hc Ht Hok Hjson Hlog Hin Hret Htext Hfl. simpl. rewrite Hfl.
  unfold pollResume, DirectLine.getBotActivities.
  rewrite Hc, Ht, Hok, Hjson. cbn [negb orb bind].
  rewrite (retained_without_text_throws data log a Hlog Hin Hret Htext).
  repeat split.
Qed.

(** X11.  The interval does not wait for a fetch in flight: each firing
    of the scheduled interval issues one more fetch, so [k] firings with
    nothing settling in between leave [k] more fetches in flight. *)
Theorem interval_fetches_overlap props handle k w :
  truthy (conversationId props) = true -> truthy (bearerToken props) = true ->
  scheduled handle (intervals w) = true ->
  let w' := run props (repeat (IntervalFires handle) k) w in
  inflight w' = (inflight w + k)%nat /\ calls w' = calls w /\ intervals w' = intervals w.
Proof.
  intros Hc Ht. revert w. induction k as [|k IH]; intros w Hs; simpl.
  - repeat split. lia.
  - rewrite Hs. unfold pollBegin at 1 2 3. rewrite Hc, Ht. cbn [negb orb].
    destruct (IH (mkWorld (hook w) (intervals w) (nextHandle w) (S (inflight w)) (calls w)) Hs)
      as (Hi & Hcalls & Hint).
    simpl in Hi, Hcalls, Hint. repeat split; trivial. rewrite Hi. lia.
Qed.

End DedupFacts.

(* ===================================================================== *)
(** * Further properties of the stabilization detector *)
(* ===================================================================== *)

Section DetectorInvariants.
Import Stabilizer StabilizerState.

(** What a check does to the timeouts: nothing, or the re-arming of a
    growth. *)
Lemma check_timeouts onBotMessage immediate env w :
  let w' := checkAndProcessStableMessage onBotMessage immediate env w in
  (timeouts w' = timeouts w
   /\ messageStabilizationTimeout (vars w') = messageStabilizationTimeout (vars w))
  \/ (timeouts w'
      = match messageStabilizationTimeout (vars w) with
        | Some old => clearTimeout old (timeouts w)
        | None => timeouts w
        end ++ [(nextHandle w, now env + STABILIZATION_DELAY)]
      /\ messageStabilizationTimeout (vars w') = Some (nextHandle w)).
Proof.
  unfold checkAndProcessStableMessage.
  destruct (botTyping env && negb immediate); [left; auto|].
  destruct (latestOf (botMessages env)) as [cur|]; [|left; auto].
  cbv zeta. rewrite or_else_self.
  destruct (negb (eqb cur (lastSeenText (vars w))) && _); [right; auto|].
  destruct (eqb cur (lastSeenText (vars w)) && _); [|left; auto].
  destruct (immediate || _); [|left; auto].
  destruct (_ && truthy cur); [|left; auto].
  destruct (truthy (cleanText cur) && (5 <? length (cleanText cur))); left; auto.
Qed.

Lemma check_armedOnce onBotMessage immediate env w :
  armedOnce w -> armedOnce (checkAndProcessStableMessage onBotMessage immediate env w).
Proof.
  intros Hw.
  destruct (check_timeouts onBotMessage immediate env w) as [[Ht Hv] | [Ht Hv]];
    unfold armedOnce; rewrite Ht, Hv; [exact Hw|].
  right. exists (nextHandle w), (now env + STABILIZATION_DELAY). split; trivial.
  destruct Hw as [-> | (h & d & -> & ->)].
  - destruct (messageStabilizationTimeout (vars w)); reflexivity.
  - simpl. rewrite Pos.eqb_refl. reflexivity.
Qed.

Lemma step_armedOnce onBotMessage ev w :
  armedOnce w -> armedOnce (step onBotMessage ev w).
Proof.
  intros Hw. destruct ev as [env|handle env]; simpl.
  - now apply check_armedOnce.
  - destruct (due handle (timeouts w)) as [t|] eqn:Hdue; trivial.
    destruct (t <=? now env); trivial.
    apply check_armedOnce. left. simpl.
    destruct Hw as [-> | (h & d & Ht & _)]; [reflexivity|].
    rewrite Ht in *. unfold due in Hdue. simpl in *.
    destruct (Pos.eqb h handle); [reflexivity | discriminate].
Qed.

(** X12.  Timeouts do not pile up: whatever checks and firings happen,
    at most one stabilization timeout is pending, and it is the one whose
    handle the detector holds. *)
Theorem at_most_one_timeout onBotMessage evs :
  let w := run onBotMessage evs initialWorld in
  (List.length (timeouts w) <= 1)%nat
  /\ forall handle dueAt, In (handle, dueAt) (timeouts w) ->
       messageStabilizationTimeout (vars w) = Some handle.
Proof.
  intros w.
  assert (H : armedOnce w).
  { unfold w. generalize initialWorld (or_introl eq_refl : armedOnce initialWorld).
    induction evs as [|ev r IH]; intros w0 H0; simpl; trivial.
    apply IH, step_armedOnce, H0. }
  destruct H as [-> | (h & d & -> & Hv)]; simpl.
  - split; [lia | intros ? ? []].
  - split; [lia|]. intros handle dueAt [[= <- <-]|[]]. exact Hv.
Qed.

(** What a check does to the recorded text, the counter and the
    deliveries. *)
Lemma check_progress onBotMessage immediate env w :
  stabilizationCount (vars w) = 0 ->
  let w' := checkAndProcessStableMessage onBotMessage immediate env w in
  stabilizationCount (vars w') = 0
  /\ length (lastSeenText (vars w)) <= length (lastSeenText (vars w'))
  /\ (delivered w' = delivered w
      \/ (delivered w' = delivered w ++ [cleanText (lastSeenText (vars w))]
          /\ 5 < length (cleanText (lastSeenText (vars w)))
          /\ lastSeenText (vars w') = lastSeenText (vars w))).
Proof.
  intros Hcount. unfold checkAndProcessStableMessage.
  destruct (botTyping env && negb immediate); [repeat split; auto; lia|].
  destruct (latestOf (botMessages env)) as [cur|]; [|repeat split; auto; lia].
  cbv zeta. rewrite or_else_self.
  destruct (negb (eqb cur (lastSeenText (vars w)))
            && (length (lastSeenText (vars w)) <? length cur)) eqn:Hgrow.
  { apply andb_prop in Hgrow. destruct Hgrow as [_ Hlen]. apply Z.ltb_lt in Hlen.
    simpl. repeat split; auto. lia. }
  destruct (eqb cur (lastSeenText (vars w))) eqn:Heq; simpl andb;
    [|repeat split; auto; lia].
  apply eqb_eq in Heq. subst cur.
  destruct (5 <? length (lastSeenText (vars w))); [|repeat split; auto; lia].
  rewrite Hcount. change (MIN_STABILIZATION_COUNT <=? 0 + 1) with true.
  rewrite orb_true_r.
  destruct (_ && truthy (lastSeenText (vars w))); [|simpl; repeat split; auto; lia].
  destruct (truthy (cleanText (lastSeenText (vars w)))
            && (5 <? length (cleanText (lastSeenText (vars w))))) eqn:Hc;
    [|simpl; repeat split; auto; lia].
  apply andb_prop in Hc. destruct Hc as [_ Hc]. apply Z.ltb_lt in Hc.
  simpl. repeat split; auto; try lia.
Qed.

Lemma step_progress onBotMessage ev w :
  stabilizationCount (vars w) = 0 ->
  let w' := step onBotMessage ev w in
  stabilizationCount (vars w') = 0
  /\ length (lastSeenText (vars w)) <= length (lastSeenText (vars w'))
  /\ (delivered w' = delivered w
      \/ (delivered w' = delivered w ++ [cleanText (lastSeenText (vars w))]
          /\ 5 < length (cleanText (lastSeenText (vars w)))
          /\ lastSeenText (vars w') = lastSeenText (vars w))).
Proof.
  intros Hcount. destruct ev as [env|handle env]; simpl.
  - now apply check_progress.
  - destruct (due handle (timeouts w)) as [t|]; [|repeat split; auto; lia].
    destruct (t <=? now env); [|repeat split; auto; lia].
    apply (check_progress onBotMessage true env
             (mkWorld (vars w) (clearTimeout handle (timeouts w)) (nextHandle w)
                      (delivered w))).
    exact Hcount.
Qed.

Lemma run_progress onBotMessage evs w :
  stabilizationCount (vars w) = 0 ->
  let w' := run onBotMessage evs w in
  stabilizationCount (vars w') = 0
  /\ length (lastSeenText (vars w)) <= length (lastSeenText (vars w'))
  /\ exists more,
       delivered w' = delivered w ++ more
       /\ forall d, In d more ->
            exists text, d = cleanText text /\ 5 < length d
                         /\ length (lastSeenText (vars w)) <= length text
                         /\ length text <= length (lastSeenText (vars w')).
Proof.
  revert w. induction evs as [|ev r IH]; intros w Hcount; simpl.
  - repeat split; trivial; [lia|]. exists []. split; [now rewrite app_nil_r | intros d []].
  - destruct (step_progress onBotMessage ev w Hcount) as (Hc1 & Hl1 & Hd1).
    destruct (IH _ Hc1) as (Hc2 & Hl2 & more & Hd2 & Hmore).
    cbv zeta in *. repeat split; trivial; [lia|].
    destruct Hd1 as [Hd1 | (Hd1 & Hlen & Hsame)].
    + exists more. split; [now rewrite Hd2, Hd1|].
      intros d Hd. destruct (Hmore d Hd) as (text & -> & H5 & Hlo & Hhi).
      exists text. repeat split; trivial. lia.
    + exists (cleanText (lastSeenText (vars w)) :: more). split.
      * rewrite Hd2, Hd1, <- app_assoc. reflexivity.
      * intros d [<-|Hd].
        -- exists (lastSeenText (vars w)). repeat split; trivial; lia.
        -- destruct (Hmore d Hd) as (text & -> & H5 & Hlo & Hhi).
           exists text. repeat split; trivial. lia.
Qed.

(** What a check does to the recorded text and to the deliveries, in any
    state. *)
Lemma check_recorded onBotMessage immediate env w :
  let w' := checkAndProcessStableMessage onBotMessage immediate env w in
  (lastSeenText (vars w') = lastSeenText (vars w)
   \/ (length (lastSeenText (vars w)) < length (lastSeenText (vars w'))
       /\ delivered w' = delivered w))
  /\ (delivered w' = delivered w
      \/ (delivered w' = delivered w ++ [cleanText (lastSeenText (vars w))]
          /\ lastSeenText (vars w') = lastSeenText (vars w)
          /\ latestOf (botMessages env) = Some (lastSeenText (vars w)))).
Proof.
  unfold checkAndProcessStableMessage.
  destruct (botTyping env && negb immediate); [auto|].
  destruct (latestOf (botMessages env)) as [cur|]; [|auto].
  cbv zeta. rewrite or_else_self.
  destruct (negb (eqb cur (lastSeenText (vars w)))
            && (length (lastSeenText (vars w)) <? length cur)) eqn:Hgrow.
  { apply andb_prop in Hgrow. destruct Hgrow as [_ Hlen]. apply Z.ltb_lt in Hlen.
    simpl. auto. }
  destruct (eqb cur (lastSeenText (vars w))) eqn:Heq; simpl andb; [|auto].
  apply eqb_eq in Heq. subst cur.
  destruct (5 <? length (lastSeenText (vars w))); [|auto].
  destruct (immediate || _); [|simpl; auto].
  destruct (_ && truthy (lastSeenText (vars w))); [|simpl; auto].
  destruct (truthy (cleanText (lastSeenText (vars w))) && _); simpl; auto.
Qed.

Lemma step_recorded onBotMessage ev w :
  let w' := step onBotMessage ev w in
  (lastSeenText (vars w') = lastSeenText (vars w)
   \/ (length (lastSeenText (vars w)) < length (lastSeenText (vars w'))
       /\ delivered w' = delivered w))
  /\ (delivered w' = delivered w
      \/ (delivered w' = delivered w ++ [cleanText (lastSeenText (vars w))]
          /\ lastSeenText (vars w') = lastSeenText (vars w)
          /\ latestOf (botMessages (eventEnv ev)) = Some (lastSeenText (vars w)))).
Proof.
  destruct ev as [env|handle env]; simpl.
  - apply check_recorded.
  - destruct (due handle (timeouts w)) as [t|]; [|auto].
    destruct (t <=? now env); [|auto].
    apply (check_recorded onBotMessage true env
             (mkWorld (vars w) (clearTimeout handle (timeouts w)) (nextHandle w)
                      (delivered w))).
Qed.

Lemma run_recorded onBotMessage evs w :
  length (lastSeenText (vars w)) <= length (lastSeenText (vars (run onBotMessage evs w))).
Proof.
  revert w. induction evs as [|ev r IH]; intros w; simpl; [lia|].
  specialize (IH (step onBotMessage ev w)).
  destruct (step_recorded onBotMessage ev w) as [[H|[H _]] _]; [rewrite H in IH|]; lia.
Qed.

(** A latest message that differs from the recorded text and is not
    longer leaves the detector as it is. *)
Lemma step_ignored onBotMessage ev w cur :
  latestOf (botMessages (eventEnv ev)) = Some cur ->
  cur <> lastSeenText (vars w) ->
  length cur <= length (lastSeenText (vars w)) ->
  vars (step onBotMessage ev w) = vars w
  /\ delivered (step onBotMessage ev w) = delivered w.
Proof.
  intros Hlatest Hneq Hlen.
  assert (Hcheck : forall immediate env w0,
            latestOf (botMessages env) = Some cur -> vars w0 = vars w ->
            checkAndProcessStableMessage onBotMessage immediate env w0 = w0).
  { intros immediate env w0 Hl Hv. unfold checkAndProcessStableMessage.
    destruct (botTyping env && negb immediate); trivial.
    rewrite Hl. cbv zeta. rewrite or_else_self, Hv.
    apply eqb_neq in Hneq. rewrite Hneq.
    apply Z.ltb_ge in Hlen. rewrite Hlen. reflexivity. }
  destruct ev as [env|handle env]; simpl in *.
  - rewrite Hcheck; auto.
  - destruct (due handle (timeouts w)) as [t|]; [|auto].
    destruct (t <=? now env); [|auto].
    rewrite Hcheck; auto.
Qed.

(** X13.  The recorded text is only ever replaced by a strictly longer
    one, at a step that delivers nothing, and a delivery is always the
    cleaning of the recorded text, which the delivering check found as
    the latest message.  So for as long as the latest message differs
    from the recorded text and is not longer, the variables of the
    detector stay as they are and nothing is delivered. *)
Theorem recorded_text_only_grows onBotMessage ev evs w cur :
  let w' := step onBotMessage ev w in
  (lastSeenText (vars w') = lastSeenText (vars w)
   \/ (length (lastSeenText (vars w)) < length (lastSeenText (vars w'))
       /\ delivered w' = delivered w))
  /\ (delivered w' = delivered w
      \/ (delivered w' = delivered w ++ [cleanText (lastSeenText (vars w))]
          /\ lastSeenText (vars w') = lastSeenText (vars w)
          /\ latestOf (botMessages (eventEnv ev)) = Some (lastSeenText (vars w))))
  /\ length (lastSeenText (vars w))
     <= length (lastSeenText (vars (run onBotMessage evs w)))
  /\ (Forall (fun e => latestOf (botMessages (eventEnv e)) = Some cur) evs ->
      cur <> lastSeenText (vars w) ->
      length cur <= length (lastSeenText (vars w)) ->
      vars (run onBotMessage evs w) = vars w
      /\ delivered (run onBotMessage evs w) = delivered w).
Proof.
  destruct (step_recorded onBotMessage ev w) as [Hseen Hdel].
  split; [exact Hseen | split; [exact Hdel | split; [apply run_recorded|]]].
  clear Hseen Hdel.
  intros Hevs Hneq Hlen. revert w Hneq Hlen.
  induction Hevs as [|e r He _ IH]; intros w Hneq Hlen; simpl; [auto|].
  destruct (step_ignored onBotMessage e w cur He Hneq Hlen) as [Hv Hd].
  destruct (IH (step onBotMessage e w)) as [Hv' Hd'];
    [now rewrite Hv | now rewrite Hv |].
  split; congruence.
Qed.

(** X14.  One stable observation always suffices, and an unchanged text
    is delivered again after 5000 ms: in every state the detector can
    reach the counter is 0; and there, a check that is not suppressed and
    finds the text delivered last still there, more than 5000 ms after
    that delivery, hands it to the callback again. *)
Theorem unchanged_text_redelivered onBotMessage evs :
  let w := run onBotMessage evs initialWorld in
  stabilizationCount (vars w) = 0
  /\ forall env,
       onBotMessage = true ->
       botTyping env = false ->
       latestOf (botMessages env) = Some (lastSeenText (vars w)) ->
       lastProcessedText (vars w) = lastSeenText (vars w) ->
       5 < length (lastSeenText (vars w)) ->
       5 < length (cleanText (lastSeenText (vars w))) ->
       5000 < now env - lastProcessedTime (vars w) ->
       let w' := checkAndProcessStableMessage true false env w in
       delivered w' = delivered w ++ [cleanText (lastSeenText (vars w))]
       /\ lastProcessedTime (vars w') = now env.
Proof.
  intros w.
  assert (Hcount : stabilizationCount (vars w) = 0).
  { apply (run_progress onBotMessage evs initialWorld eq_refl). }
  split; trivial.
  intros env Hcb Htyping Hlatest Hproc Hlen Hclean Hlate. cbv zeta.
  rewrite (check_delivers false env w (lastSeenText (vars w))); trivial.
  - split; reflexivity.
  - now rewrite Htyping.
  - right. rewrite Hcount. discriminate.
  - now right.
Qed.

End DetectorInvariants.

Section CleanTextFacts.
Import Stabilizer StabilizerState.

Lemma trimStart_head s : headNotSpace (trimStart s) = true.
Proof.
  induction s as [|c r IH]; simpl; trivial.
  destruct (isWhiteSpace c) eqn:E; trivial. simpl. now rewrite E.
Qed.

Lemma trimStart_fixed s : headNotSpace s = true -> trimStart s = s.
Proof.
  destruct s as [|c r]; simpl; trivial.
  intros H. apply negb_true_iff in H. now rewrite H.
Qed.

Lemma singleSpaced_tail c r : singleSpaced (c :: r) = true -> singleSpaced r = true.
Proof. simpl. intros H. now apply andb_prop in H. Qed.

Lemma trimStart_singleSpaced s :
  singleSpaced s = true -> singleSpaced (trimStart s) = true.
Proof.
  induction s as [|c r IH]; intros H; trivial.
  simpl trimStart. destruct (isWhiteSpace c); trivial.
  apply IH. now apply singleSpaced_tail in H.
Qed.

Lemma trimStart_snoc l c :
  trimStart (l ++ [c]) =
  match trimStart l with
  | [] => if isWhiteSpace c then [] else [c]
  | t => t ++ [c]
  end.
Proof.
  induction l as [|d r IH]; simpl; trivial.
  destruct (isWhiteSpace d); trivial.
Qed.

Lemma trimEnd_cons c r :
  trimEnd (c :: r) =
  match trimEnd r with
  | [] => if isWhiteSpace c then [] else [c]
  | t => c :: t
  end.
Proof.
  unfold trimEnd. simpl rev. rewrite trimStart_snoc.
  destruct (trimStart (rev r)) as [|d t] eqn:E; simpl.
  - destruct (isWhiteSpace c); reflexivity.
  - rewrite rev_app_distr. simpl.
    destruct (rev t ++ [d]) eqn:E'; [destruct (rev t); discriminate | reflexivity].
Qed.

Lemma trimEnd_head s :
  trimEnd s <> [] -> headNotSpace (trimEnd s) = headNotSpace s.
Proof.
  destruct s as [|c r]; trivial.
  rewrite trimEnd_cons. destruct (trimEnd r); trivial.
  destruct (isWhiteSpace c) eqn:E; [congruence | reflexivity].
Qed.

Lemma trimEnd_singleSpaced s :
  singleSpaced s = true -> singleSpaced (trimEnd s) = true.
Proof.
  induction s as [|c r IH]; intros H; trivial.
  rewrite trimEnd_cons.
  pose proof (trimEnd_head r) as Hhead.
  simpl in H. apply andb_prop in H. destruct H as [Hc Hr].
  specialize (IH Hr).
  destruct (trimEnd r) as [|d t] eqn:E.
  - destruct (isWhiteSpace c) eqn:Ec; trivial. simpl. now rewrite Ec.
  - change (singleSpaced (c :: d :: t))
      with ((negb (isWhiteSpace c) || (c =? 32) && headNotSpace (d :: t))
            && singleSpaced (d :: t)).
    rewrite IH, andb_true_r, Hhead; [exact Hc | discriminate].
Qed.

Lemma trimEnd_last s : headNotSpace (rev (trimEnd s)) = true.
Proof. unfold trimEnd. rewrite rev_involutive. apply trimStart_head. Qed.

Lemma collapseSpaces_singleSpaced inRun s :
  singleSpaced (collapseSpaces inRun s) = true
  /\ (inRun = true -> headNotSpace (collapseSpaces inRun s) = true).
Proof.
  revert inRun. induction s as [|c r IH]; intros inRun; simpl; [auto|].
  destruct (isWhiteSpace c) eqn:Ec.
  - destruct inRun.
    + apply IH.
    + split; [|discriminate]. simpl.
      destruct (IH true) as [-> ->]; trivial.
  - split.
    + simpl. rewrite Ec. simpl. apply IH.
    + intros _. simpl. now rewrite Ec.
Qed.

(** The cleaned text is in normal form. *)
Lemma cleanText_normal s :
  singleSpaced (cleanText s) = true /\ trim (cleanText s) = cleanText s.
Proof.
  unfold cleanText, trim.
  set (o := collapseSpaces false _).
  assert (Hs : singleSpaced (trimEnd (trimStart o)) = true).
  { apply trimEnd_singleSpaced, trimStart_singleSpaced, collapseSpaces_singleSpaced. }
  split; trivial.
  assert (Hh : headNotSpace (trimEnd (trimStart o)) = true).
  { destruct (trimEnd (trimStart o)) eqn:E; trivial.
    rewrite <- E, trimEnd_head; [apply trimStart_head | congruence]. }
  rewrite (trimStart_fixed _ Hh).
  unfold trimEnd at 1. rewrite (trimStart_fixed _ (trimEnd_last _)).
  apply rev_involutive.
Qed.

(** X15.  Every text the callback ever receives from the detector is
    longer than 5, begins and ends with something that is not white
    space, and has no white space but single U+0020 between other
    characters. *)
Theorem delivered_texts_are_clean onBotMessage evs d :
  In d (delivered (run onBotMessage evs initialWorld)) ->
  5 < length d /\ trim d = d /\ singleSpaced d = true.
Proof.
  destruct (run_progress onBotMessage evs initialWorld eq_refl)
    as (_ & _ & more & Hd & Hmore).
  rewrite Hd. simpl. intros Hin.
  destruct (Hmore d Hin) as (text & -> & H5 & _).
  destruct (cleanText_normal text) as [Hs Ht]. auto.
Qed.

End CleanTextFacts.

(* ===================================================================== *)
(** * Properties of the extraction from the document *)
(* ===================================================================== *)

Section DomFacts.
Context {unicode : Unicode}.
Import Dom.

Lemma isBot_always el : isBot el = true.
Proof. unfold isBot. apply orb_true_r. Qed.

(** What an accepted element is like. *)
Lemma classify_accepted now el m :
  classify now el = Some m ->
  exists t,
    textContent el = Some t
    /\ m = mkMessage (trim t) el now
    /\ 10 <= length (trim t)
    /\ isUserMessage el = false
    /\ toLowerCase (trim t) <> lit "typing..."
    /\ toLowerCase (trim t) <> lit "loading..."
    /\ includes (lit "click to send") (toLowerCase (trim t)) = false.
Proof.
  unfold classify, trimmedText. rewrite isBot_always.
  destruct (textContent el) as [t|]; [|discriminate].
  destruct (negb (truthy (trim t)) || (length (trim t) <? 5)); [discriminate|].
  destruct (isUserMessage el); [discriminate|].
  destruct (length (trim t) <? 10) eqn:L10; [discriminate|].
  destruct (eqb (toLowerCase (trim t)) (lit "typing...")) eqn:E1; [discriminate|].
  destruct (eqb (toLowerCase (trim t)) (lit "loading...")) eqn:E2; [discriminate|].
  destruct (includes (lit "click to send") (toLowerCase (trim t))) eqn:E3; [discriminate|].
  simpl. destruct (truthy (trim t)); [|discriminate].
  intros [= <-]. exists t. apply Z.ltb_ge in L10. apply eqb_neq in E1, E2.
  repeat split; trivial.
Qed.

(** X16.  An element is taken for a bot message by default: it is
    accepted exactly when its trimmed text has at least 10 code units,
    nothing marks it as a user message, and its text is not one of the
    transient strings.  The bot markers (the classes bot, assistant,
    agent, system and message, the alignment to the left) play no part. *)
Theorem classify_assumes_bot now el m :
  classify now el = Some m <->
  exists t,
    textContent el = Some t
    /\ m = mkMessage (trim t) el now
    /\ 10 <= length (trim t)
    /\ isUserMessage el = false
    /\ toLowerCase (trim t) <> lit "typing..."
    /\ toLowerCase (trim t) <> lit "loading..."
    /\ includes (lit "click to send") (toLowerCase (trim t)) = false.
Proof.
  split; [apply classify_accepted|].
  intros (t & Ht & -> & H10 & Hu & H1 & H2 & H3).
  unfold classify, trimmedText. rewrite Ht, isBot_always.
  assert (Htr : truthy (trim t) = true).
  { destruct (trim t); [|reflexivity]. unfold length in H10. simpl in H10. lia. }
  assert (L5 : (length (trim t) <? 5) = false) by (apply Z.ltb_ge; lia).
  assert (L10 : (length (trim t) <? 10) = false) by (apply Z.ltb_ge; lia).
  apply eqb_neq in H1, H2.
  rewrite Htr, L5, Hu, L10, H1, H2, H3. reflexivity.
Qed.

Lemma existsb_eqb text seen : existsb (eqb text) seen = true <-> In text seen.
Proof.
  rewrite existsb_exists. split.
  - intros (x & Hx & E). apply eqb_eq in E. now subst.
  - intros H. exists text. split; trivial. apply eqb_refl.
Qed.

Lemma unique_spec l seenTexts :
  (forall el, In el (unique seenTexts l) ->
     In el l /\ exists t, trimmedText el = Some t /\ ~ In t seenTexts)
  /\ NoDup (map trimmedText (unique seenTexts l)).
Proof.
  revert seenTexts. induction l as [|el r IH]; intros seenTexts; simpl.
  - split; [intros ? [] | constructor].
  - destruct (trimmedText el) as [t|] eqn:Et.
    + destruct (truthy t && negb (existsb (eqb t) seenTexts)) eqn:E.
      * apply andb_prop in E. destruct E as [_ E]. apply negb_true_iff in E.
        assert (Hnew : ~ In t seenTexts).
        { intros H. apply existsb_eqb in H. congruence. }
        destruct (IH (t :: seenTexts)) as [Hin Hnd]. split.
        -- intros x [<-|Hx]; [split; [now left | eauto]|].
           destruct (Hin x Hx) as (Hx' & t' & Ht' & Hn).
           split; [now right|]. exists t'. split; trivial.
           intros H. apply Hn. now right.
        -- simpl. rewrite Et. constructor; trivial.
           intros H. apply in_map_iff in H. destruct H as (x & Hx & Hxin).
           destruct (Hin x Hxin) as (_ & t' & Ht' & Hn).
           apply Hn. left. congruence.
      * destruct (IH seenTexts) as [Hin Hnd]. split; trivial.
        intros x Hx. destruct (Hin x Hx) as (Hx' & H). split; [now right | exact H].
    + destruct (IH seenTexts) as [Hin Hnd]. split; trivial.
      intros x Hx. destruct (Hin x Hx) as (Hx' & H). split; [now right | exact H].
Qed.

Lemma classified_spec now l :
  (forall m, In m (classified now l) <-> exists el, In el l /\ classify now el = Some m)
  /\ (NoDup (map trimmedText l) -> NoDup (map text (classified now l))).
Proof.
  induction l as [|el r [IHin IHnd]]; simpl.
  - split; [intros m; split; [intros [] | intros (el & [] & _)] | constructor].
  - destruct (classify now el) as [m0|] eqn:E.
    + split.
      * intros m. simpl. rewrite IHin. split.
        -- intros [<-|(x & Hx & Hc)]; [exists el; auto | exists x; auto].
        -- intros (x & [<-|Hx] & Hc); [left; congruence | right; eauto].
      * intros Hnd. inversion Hnd as [|? ? Hnotin Hnd']; subst.
        simpl. constructor; [|now apply IHnd].
        intros H. apply in_map_iff in H. destruct H as (m & Hm & Hin).
        apply IHin in Hin. destruct Hin as (x & Hx & Hc).
        apply classify_accepted in E. destruct E as (t & Ht & -> & _).
        apply classify_accepted in Hc. destruct Hc as (t' & Ht' & -> & _).
        simpl in Hm. apply Hnotin. apply in_map_iff. exists x. split; trivial.
        unfold trimmedText. rewrite Ht, Ht'. congruence.
    + split.
      * intros m. rewrite IHin. split.
        -- intros (x & Hx & Hc). exists x. auto.
        -- intros (x & [<-|Hx] & Hc); [congruence | eauto].
      * intros Hnd. inversion Hnd; subst. now apply IHnd.
Qed.

Lemma extracted_spec doc now :
  NoDup (map text (extractBotMessages doc now))
  /\ forall m, In m (extractBotMessages doc now) ->
       (exists chat, webchat doc = Some chat
                     /\ In (element m) (selected chat ++ allDivs chat))
       /\ classify now (element m) = Some m.
Proof.
  unfold extractBotMessages. destruct (webchat doc) as [chat|].
  - cbv zeta.
    set (elements := selected chat ++ filter looksLikeMessage (allDivs chat)).
    destruct (unique_spec elements []) as [Huin Hund].
    destruct (classified_spec now (unique [] elements)) as [Hcin Hcnd].
    split; [now apply Hcnd|].
    intros m Hm. apply Hcin in Hm. destruct Hm as (el & Hel & Hc).
    assert (Hel' : element m = el).
    { apply classify_accepted in Hc. destruct Hc as (t & _ & -> & _). reflexivity. }
    rewrite Hel'. split; trivial.
    exists chat. split; trivial.
    destruct (Huin el Hel) as (Hin & _). unfold elements in Hin.
    apply in_app_or in Hin. apply in_or_app.
    destruct Hin as [H|H]; [now left | right]. now apply filter_In in H.
  - split; [constructor | intros m []].
Qed.

(** X17.  The messages extracted from the document have pairwise
    different texts; each is an element the queries returned, with at
    least 10 code units of trimmed text and nothing that marks it as a
    user message; without a webchat element the result is empty. *)
Theorem extractBotMessages_distinct doc now :
  NoDup (map text (extractBotMessages doc now))
  /\ (webchat doc = None -> extractBotMessages doc now = [])
  /\ forall m, In m (extractBotMessages doc now) ->
       (exists chat, webchat doc = Some chat
                     /\ In (element m) (selected chat ++ allDivs chat))
       /\ trimmedText (element m) = Some (text m)
       /\ 10 <= length (text m)
       /\ isUserMessage (element m) = false.
Proof.
  destruct (extracted_spec doc now) as [Hnd Hin].
  split; [exact Hnd | split].
  - intros Hnone. unfold extractBotMessages. now rewrite Hnone.
  - intros m Hm. destruct (Hin m Hm) as [Hchat Hc].
    apply classify_accepted in Hc. destruct Hc as (t & Ht & Hmeq & H10 & Hu & _).
    split; trivial. rewrite Hmeq. simpl. unfold trimmedText. simpl.
    rewrite Ht. auto.
Qed.

Lemma latestOf_In (l : list jsstring) cur :
  Stabilizer.latestOf l = Some cur -> In cur l.
Proof.
  unfold Stabilizer.latestOf. intros H.
  destruct (rev l) as [|x r] eqn:E; [discriminate|].
  injection H as <-. apply in_rev. rewrite E. now left.
Qed.

(** X18.  On a document, a check delivers at most the cleaned text of a
    message it extracted: what reaches the callback comes from an element
    of at least 10 code units that nothing marks as a user message, so a
    shorter bot reply is never delivered. *)
Theorem checkDocument_delivers_extracted onBotMessage immediate doc now w :
  let w' := checkDocument onBotMessage immediate doc now w in
  Stabilizer.delivered w' = Stabilizer.delivered w
  \/ exists m,
       In m (extractBotMessages doc now)
       /\ Stabilizer.delivered w'
          = Stabilizer.delivered w ++ [Stabilizer.cleanText (text m)]
       /\ 10 <= length (text m)
       /\ isUserMessage (element m) = false.
Proof.
  unfold checkDocument.
  destruct (check_delivery onBotMessage immediate
              (Stabilizer.mkEnv now (isBotTyping doc)
                 (map text (extractBotMessages doc now))) w)
    as [H | (cur & Hlatest & Hd & _)]; [now left | right].
  simpl in Hlatest. apply latestOf_In in Hlatest.
  apply in_map_iff in Hlatest. destruct Hlatest as (m & <- & Hm).
  exists m. split; trivial. split; trivial.
  destruct (extracted_spec doc now) as [_ Hin].
  destruct (Hin m Hm) as [_ Hc].
  apply classify_accepted in Hc. destruct Hc as (t & _ & -> & H10 & Hu & _).
  simpl. auto.
Qed.

End DomFacts.

(* ===================================================================== *)
(** * The detector on a page whose message is typed out *)
(* ===================================================================== *)

Section AsciiPages.
Context {unicode : Unicode}.
Import Dom.

Lemma asciiOnly_lower s : asciiOnly s = true -> asciiOnly (toLowerASCII s) = true.
Proof.
  unfold asciiOnly, toLowerASCII. rewrite !forallb_forall.
  intros H c Hc. apply in_map_iff in Hc. destruct Hc as (x & <- & Hx).
  specialize (H x Hx). apply andb_prop in H. destruct H as [H0 H1].
  apply Z.leb_le in H0. apply Z.ltb_lt in H1.
  destruct ((65 <=? x) && (x <=? 90)) eqn:E.
  - apply andb_prop in E. destruct E as [_ E]. apply Z.leb_le in E.
    apply andb_true_intro. split; [apply Z.leb_le | apply Z.ltb_lt]; lia.
  - apply andb_true_intro. split; [apply Z.leb_le | apply Z.ltb_lt]; lia.
Qed.

Lemma asciiOnly_app a b : asciiOnly (a ++ b) = asciiOnly a && asciiOnly b.
Proof. apply forallb_app. Qed.

Lemma asciiOnly_trimStart s : asciiOnly s = true -> asciiOnly (trimStart s) = true.
Proof.
  induction s as [|c r IH]; simpl; trivial.
  intros H. destruct (isWhiteSpace c); [|exact H].
  apply andb_prop in H. now apply IH.
Qed.

Lemma asciiOnly_rev s : asciiOnly s = true -> asciiOnly (rev s) = true.
Proof.
  unfold asciiOnly. rewrite !forallb_forall. intros H c Hc. apply H. now apply in_rev.
Qed.

Lemma asciiOnly_trim s : asciiOnly s = true -> asciiOnly (trim s) = true.
Proof.
  intros H. unfold trim, trimEnd.
  apply asciiOnly_rev, asciiOnly_trimStart, asciiOnly_rev, asciiOnly_trimStart, H.
Qed.

Lemma asciiOnly_or_else s : asciiOnly s = true -> asciiOnly (or_else (Some s) []) = true.
Proof. intros H. unfold or_else. destruct (truthy s); trivial. Qed.

(** The class string of the node at a place among the ancestors, in lower
    case: the same under every engine when the classes are ASCII. *)
Lemma lowerClasses_ascii (n : Node) :
  asciiNode n = true ->
  toLowerCase (classes n) = toLowerASCII (classes n)
  /\ asciiOnly (toLowerASCII (classes n)) = true.
Proof.
  unfold asciiNode. intros H. split; [now apply toLowerCase_ascii | now apply asciiOnly_lower].
Qed.

Lemma allClasses_ascii el :
  asciiElement el = true ->
  allClasses (unicode := unicode) el = allClasses (unicode := asciiCase) el.
Proof.
  unfold asciiElement, allClasses. intros H.
  apply andb_prop in H. destruct H as [H Hanc].
  apply andb_prop in H. destruct H as [_ Hself].
  cbn [toLowerCase asciiCase].
  destruct (lowerClasses_ascii _ Hself) as [-> Hs].
  assert (Hsp : asciiOnly (lit " ") = true) by reflexivity.
  destruct (ancestors el) as [|p [|g rest]]; simpl in Hanc.
  - apply toLowerCase_ascii. rewrite !asciiOnly_app, Hs, Hsp. reflexivity.
  - apply andb_prop in Hanc. destruct Hanc as [Hp _].
    destruct (lowerClasses_ascii _ Hp) as [-> Hp'].
    apply toLowerCase_ascii.
    rewrite !asciiOnly_app, Hs, Hsp, (asciiOnly_or_else _ Hp'). reflexivity.
  - apply andb_prop in Hanc. destruct Hanc as [Hp Hanc].
    apply andb_prop in Hanc. destruct Hanc as [Hg _].
    destruct (lowerClasses_ascii _ Hp) as [-> Hp'].
    destruct (lowerClasses_ascii _ Hg) as [-> Hg'].
    apply toLowerCase_ascii.
    rewrite !asciiOnly_app, Hs, Hsp, (asciiOnly_or_else _ Hp'), (asciiOnly_or_else _ Hg').
    reflexivity.
Qed.

Lemma isUserMessage_ascii el :
  asciiElement el = true ->
  isUserMessage (unicode := unicode) el = isUserMessage (unicode := asciiCase) el.
Proof. intros H. unfold isUserMessage. now rewrite (allClasses_ascii el H). Qed.

Lemma looksLikeMessage_ascii el :
  asciiElement el = true ->
  looksLikeMessage (unicode := unicode) el = looksLikeMessage (unicode := asciiCase) el.
Proof.
  unfold asciiElement, looksLikeMessage. intros H.
  apply andb_prop in H. destruct H as [H Hanc].
  apply andb_prop in H. destruct H as [_ Hself].
  cbn [toLowerCase asciiCase].
  destruct (lowerClasses_ascii _ Hself) as [-> _].
  destruct (ancestors el) as [|p rest]; [reflexivity|].
  simpl in Hanc. apply andb_prop in Hanc. destruct Hanc as [Hp _].
  destruct (lowerClasses_ascii _ Hp) as [-> _]. reflexivity.
Qed.

Lemma classify_ascii now el :
  asciiElement el = true ->
  classify (unicode := unicode) now el = classify (unicode := asciiCase) now el.
Proof.
  intros H. unfold classify. rewrite (isUserMessage_ascii el H).
  unfold trimmedText. unfold asciiElement in H.
  destruct (textContent el) as [t|]; [|reflexivity].
  apply andb_prop in H. destruct H as [H _].
  apply andb_prop in H. destruct H as [Ht _].
  cbn [toLowerCase asciiCase].
  rewrite (toLowerCase_ascii (trim t)) by now apply asciiOnly_trim.
  rewrite (isBot_always (unicode := unicode)), (isBot_always (unicode := asciiCase)).
  reflexivity.
Qed.

Lemma classified_ascii now l :
  forallb asciiElement l = true ->
  classified (unicode := unicode) now l = classified (unicode := asciiCase) now l.
Proof.
  induction l as [|el r IH]; simpl; trivial.
  intros H. apply andb_prop in H. destruct H as [Hel Hr].
  rewrite (classify_ascii now el Hel), (IH Hr). reflexivity.
Qed.

Lemma unique_ascii l seenTexts :
  forallb asciiElement l = true -> forallb asciiElement (unique seenTexts l) = true.
Proof.
  revert seenTexts. induction l as [|el r IH]; intros seenTexts; simpl; trivial.
  intros H. apply andb_prop in H. destruct H as [Hel Hr].
  destruct (trimmedText el) as [t|]; [|now apply IH].
  destruct (truthy t && negb (existsb (eqb t) seenTexts)); [|now apply IH].
  simpl. rewrite Hel. now apply IH.
Qed.

(** On a document in ASCII the extraction does not depend on the engine's
    case mappings. *)
Lemma extraction_on_ascii doc now :
  asciiDocument doc = true ->
  extractBotMessages (unicode := unicode) doc now
  = extractBotMessages (unicode := asciiCase) doc now.
Proof.
  unfold asciiDocument, extractBotMessages.
  destruct (webchat doc) as [chat|]; [|reflexivity].
  intros H. apply andb_prop in H. destruct H as [Hsel Hdivs]. cbv zeta.
  assert (Hf : filter (looksLikeMessage (unicode := unicode)) (allDivs chat)
               = filter (looksLikeMessage (unicode := asciiCase)) (allDivs chat)).
  { apply filter_ext_in. intros el Hel. apply looksLikeMessage_ascii.
    rewrite forallb_forall in Hdivs. now apply Hdivs. }
  rewrite Hf. apply classified_ascii, unique_ascii.
  rewrite forallb_app, Hsel. simpl.
  apply forallb_forall. intros el Hel. apply filter_In in Hel.
  rewrite forallb_forall in Hdivs. now apply Hdivs.
Qed.


End AsciiPages.

Section GrowingText.
Context {unicode : Unicode}.
Import Dom Stabilizer StabilizerState.







End GrowingText.


(* ===================================================================== *)
(** * Properties of the typing detection *)
(* ===================================================================== *)

Section TypingFacts.
Import TypingDetection.

Lemma cleared_pending w :
  flagged w ->
  match typingTimeoutRef w with
  | Some handle => clearTimeout handle (timeouts w)
  | None => timeouts w
  end = [].
Proof.
  intros [[_ ->] | (_ & h & d & -> & ->)].
  - destruct (typingTimeoutRef w); reflexivity.
  - simpl. now rewrite Pos.eqb_refl.
Qed.

Lemma checkTyping_flagged chat now w :
  flagged w ->
  let typing := detectTyping chat || checkTypingIndicator chat in
  let w' := checkTyping chat now w in
  flagged w'
  /\ isTyping w' = typing
  /\ timeouts w' = if typing then [(nextHandle w, now + 2000)] else [].
Proof.
  intros Hw. unfold checkTyping. cbv zeta. rewrite (cleared_pending w Hw).
  destruct (detectTyping chat || checkTypingIndicator chat); simpl.
  - split; [|split; reflexivity].
    right. split; [reflexivity|]. simpl.
    exists (nextHandle w), (now + 2000). split; reflexivity.
  - split; [|split; reflexivity].
    left. split; reflexivity.
Qed.

Lemma step_flagged ev w : flagged w -> flagged (step ev w).
Proof.
  intros Hw. destruct ev as [chat now|handle now]; simpl.
  - now apply checkTyping_flagged.
  - destruct (due handle (timeouts w)) as [t|] eqn:Hdue; trivial.
    destruct (t <=? now); trivial.
    left. simpl. split; trivial.
    destruct Hw as [[_ Ht] | (_ & h & d & Ht & _)]; rewrite Ht in *; trivial.
    unfold due in Hdue. simpl in *.
    destruct (Pos.eqb h handle); [reflexivity | discriminate].
Qed.

Lemma run_flagged evs w : flagged w -> flagged (run evs w).
Proof.
  revert w. induction evs as [|ev r IH]; intros w H; simpl; trivial.
  apply IH, step_flagged, H.
Qed.

(** X19.  The typing flag cannot stick: in every state the hook can
    reach, [isTyping] is true exactly while one reset timeout is pending
    (the one whose handle the hook holds), and after each check the flag
    is what the check found, with the reset due 2000 ms after that check
    when it found typing and nothing pending when it did not. *)
Theorem typing_flag_follows_timeout evs chat now :
  let w := run evs initialWorld in
  let typing := detectTyping chat || checkTypingIndicator chat in
  let w' := checkTyping chat now w in
  (isTyping w = true <->
     exists handle dueAt,
       timeouts w = [(handle, dueAt)] /\ typingTimeoutRef w = Some handle)
  /\ (isTyping w = false <-> timeouts w = [])
  /\ isTyping w' = typing
  /\ timeouts w' = if typing then [(nextHandle w, now + 2000)] else [].
Proof.
  intros w typing w'.
  assert (Hw : flagged w).
  { apply run_flagged. left. split; reflexivity. }
  destruct (checkTyping_flagged chat now w Hw) as (_ & Hflag & Hto).
  repeat split; trivial.
  - intros H. destruct Hw as [[H' _] | [_ H']]; [congruence | exact H'].
  - intros (h & d & Ht & _). destruct Hw as [[_ H'] | [H' _]]; [congruence | exact H'].
  - intros H. destruct Hw as [[_ H'] | [H' _]]; [exact H' | congruence].
  - intros H. destruct Hw as [[H' _] | (_ & h & d & Ht & _)]; [exact H' | congruence].
Qed.

End TypingFacts.

(* ===================================================================== *)
(** * The further properties on concrete inputs *)
(* ===================================================================== *)

Lemma callback_never_repeats_witness :
  let host := RefHost.host in
  ~ (lit "Welcome" = lit "Anything else?" /\ lit "A1" = lit "A3").
Proof.
  intros host.
  apply (callback_never_repeats (host := host) Examples.props MoreExamples.twoPolls []
           (Polling.mkCall (lit "Welcome") (lit "Welcome") (lit "A1"))
           (Polling.mkCall (lit "Anything else?") (lit "Anything else?") (lit "A3"))
           []).
  vm_compute. reflexivity.
Defined.

Lemma restart_keeps_dedup_witness :
  let host := RefHost.host in
  let net := Responded (Examples.okResponse Examples.orderedLog) in
  let m := DirectLine.toBotMessage
             (Examples.say "A3" "Anything else?" "2024-03-01T12:00:09Z") in
  let w1 := Polling.deliver Examples.props m
              (Polling.run Examples.props [Polling.StartPolling] Polling.initialWorld) in
  Polling.calls
    (Polling.run Examples.props
       ([Polling.StopPolling; Polling.StartPolling] ++ [Polling.FetchSettles net]) w1)
  = Polling.calls w1.
Proof.
  intros host net m w1.
  apply (restart_keeps_dedup (host := host) Examples.props m).
  - repeat constructor; discriminate.
  - vm_compute. reflexivity.
Defined.

Lemma error_stays_until_restart_witness :
  let host := RefHost.host in
  let w := Polling.run Examples.props
             [Polling.StartPolling;
              Polling.FetchSettles (Responded (Examples.failed 401));
              Polling.IntervalFires 1] Polling.initialWorld in
  Polling.error
    (Polling.hook
       (Polling.run Examples.props
          [Polling.FetchSettles (Responded (Examples.okResponse Examples.orderedLog))] w))
  <> None.
Proof.
  intros host w.
  apply (error_stays_until_restart (host := host)).
  - repeat constructor; discriminate.
  - vm_compute. discriminate.
Defined.

Lemma card_in_log_blocks_delivery_witness :
  let host := RefHost.host in
  let w := Polling.run Examples.props [Polling.StartPolling] Polling.initialWorld in
  let w' := Polling.step Examples.props
              (Polling.FetchSettles
                 (Responded (Examples.okResponse MoreExamples.staleCardLog))) w in
  Polling.calls w' = Polling.calls w
  /\ Polling.lastMessageRef (Polling.hook w') = Polling.lastMessageRef (Polling.hook w)
  /\ Polling.lastActivityIdRef (Polling.hook w')
     = Polling.lastActivityIdRef (Polling.hook w)
  /\ Polling.error (Polling.hook w') = Some (message (cannotRead "substring")).
Proof.
  intros host w.
  apply (card_in_log_blocks_delivery (host := host) Examples.props
           (Examples.okResponse MoreExamples.staleCardLog)
           (Examples.body MoreExamples.staleCardLog) MoreExamples.staleCardLog
           (Examples.card "A1" "2024-03-01T12:00:00Z") w O);
    try reflexivity.
  left. reflexivity.
Defined.

Lemma interval_fetches_overlap_witness :
  let host := RefHost.host in
  let w := Polling.run Examples.props [Polling.StartPolling] Polling.initialWorld in
  Polling.inflight
    (Polling.run Examples.props (repeat (Polling.IntervalFires 1) 3) w) = 4%nat.
Proof.
  intros host w.
  destruct (interval_fetches_overlap (host := host) Examples.props 1%positive 3 w
              eq_refl eq_refl eq_refl) as (H & _).
  exact H.
Defined.

Lemma unchanged_text_redelivered_witness :
  let w := Stabilizer.run true MoreExamples.delivered800 Stabilizer.initialWorld in
  Stabilizer.delivered
    (Stabilizer.checkAndProcessStableMessage true false
       (Examples.shows 6000 "Hello world") w)
  = [lit "Hello world"; lit "Hello world"].
Proof.
  intros w.
  destruct (unchanged_text_redelivered true MoreExamples.delivered800) as (_ & H).
  destruct (H (Examples.shows 6000 "Hello world")) as (Hd & _);
    [reflexivity .. | exact Hd].
Defined.

Lemma recorded_text_only_grows_witness :
  let w := Stabilizer.run true MoreExamples.delivered800 Stabilizer.initialWorld in
  let later := [ Stabilizer.Check (Examples.shows 1000 "Great pick!");
                 Stabilizer.Check (Examples.shows 9000 "Great pick!") ] in
  Stabilizer.vars (Stabilizer.run true later w) = Stabilizer.vars w
  /\ Stabilizer.delivered (Stabilizer.run true later w) = Stabilizer.delivered w.
Proof.
  intros w later.
  destruct (recorded_text_only_grows true (Stabilizer.Check (Examples.shows 1000 "Great pick!"))
              later w (lit "Great pick!")) as (_ & _ & _ & H).
  apply H.
  - repeat constructor.
  - vm_compute. discriminate.
  - vm_compute. discriminate.
Defined.

Lemma delivered_texts_are_clean_witness :
  5 < length (lit "Hello world")
  /\ trim (lit "Hello world") = lit "Hello world"
  /\ StabilizerState.singleSpaced (lit "Hello world") = true.
Proof.
  apply (delivered_texts_are_clean true MoreExamples.delivered800 (lit "Hello world")).
  left. reflexivity.
Defined.

(** The extraction on a page: the bubble found twice is taken once, the
    user bubble, the placeholder and the short reply are dropped, and
    the plain [div] is taken for a bot message. *)
Example page_extraction (unicode : Unicode) :
  map Dom.text (Dom.extractBotMessages (unicode := unicode) MoreExamples.page 0)
  = [lit "Welcome to the salon"; lit "The next lot is a landscape"].
Proof.
  rewrite (extraction_on_ascii (unicode := unicode)) by reflexivity.
  vm_compute. reflexivity.
Qed.
